(** * cv2_show: mosaic layout and presentation of float images

    A shallow embedding of [cv2_show.py] (module "Utility functions for
    showing images from model") and the properties of its layout,
    sign-encoding, normalisation, assembly and presentation code.

    Modelling conventions.
    - A numpy array is a record of its dtype, its shape and its samples in
      row-major (C) order.
    - The samples of an image are exact rationals ([Q]) and the arithmetic
      on samples (the normalisation, the division by 255) is exact: a
      formula for a buffer names the operations the code applies, and the
      bounds on normalised samples are stated with room for the rounding of
      these operations.  Equality of samples is [Qeq].
    - The scalar arithmetic of the module (the square root and the quotient
      of [best_grid], the scale factors and the cell size of
      [show_images_grid]) is binary64 arithmetic: [spec_float] of the
      standard library with its correctly rounded operations.  [best_grid]
      is the layout in exact arithmetic and [best_grid_f64] the layout as
      binary64 computes it; the two are compared below.
    - Python exceptions are values of [pyerr]; a computation returns a
      [result].
    - Calls into OpenCV and the logger are recorded as [event]s in a trace
      that is threaded through the computation, so that the order of the
      external calls can be stated. *)

From Stdlib Require Import ZArith QArith Qround Qminmax Qabs List Bool Lia Lqa.
From Stdlib Require Import SpecFloat.
Import ListNotations.

Local Open Scope Z_scope.

(** ** Python exceptions and results *)

Inductive pyerr : Type :=
| AssertionError
| ValueError
| TypeError
| IndexError
| ZeroDivisionError
| OverflowError
| Cv2Error      (* cv2.error raised by an OpenCV primitive *)
| NonFinite.    (* not a Python exception: numpy goes on with inf/nan after a
                   division by zero (RuntimeWarning); the rational model
                   cannot follow the run any further *)

Inductive result (A : Type) : Type :=
| Ok (a : A)
| Err (e : pyerr).

Arguments Ok {A} a.
Arguments Err {A} e.

Definition rbind {A B} (r : result A) (k : A -> result B) : result B :=
  match r with
  | Ok a => k a
  | Err e => Err e
  end.

(** ** Arrays *)

Inductive dtype : Type := Float32 | Float64 | Int64 | UInt8.

(** [image.dtype in [np.float32, np.float64]] *)
Definition is_floating (d : dtype) : bool :=
  match d with
  | Float32 | Float64 => true
  | _ => false
  end.

Record ndarray : Type := mkArr {
  dt : dtype;
  shape : list nat;
  data : list Q
}.

Definition ndim (a : ndarray) : nat := length (shape a).

Definition amap (f : Q -> Q) (a : ndarray) : ndarray :=
  mkArr (dt a) (shape a) (map f (data a)).

Definition Qltb (x y : Q) : bool := negb (Qle_bool y x).

(** ** Constants of the module *)

Definition DESIRED_HEIGHT : Z := 500.
Definition DEFAULT_BACKGROUND_COLOR : Q := ((3 # 10) * 255)%Q.
Definition eps : Q := (1 # 1000000000000000)%Q.   (* 1e-15 *)

Definition KEY_ESCAPE : Z := 27.
Definition KEY_q : Z := 113.                   (* ord('q') *)

(** ** binary64 numbers

    A Python float and a [np.float64] are binary64 numbers: [spec_float] at
    precision 53 with exponents below 1024.  [SFsqrt], [SFdiv] and [SFmul]
    of the standard library round to nearest, ties to even. *)

Definition f64 : Type := spec_float.

Definition f64_prec : Z := 53.
Definition f64_emax : Z := 1024.

(** The conversion of an integer to binary64: the nearest number, infinite
    when the integer is out of range. *)
Definition f64_of_Z (n : Z) : f64 := binary_normalize f64_prec f64_emax n 0 false.

(** An integer as an operand that is not rounded yet. *)
Definition f64_exact (n : Z) : f64 :=
  match n with
  | Z0 => S754_zero false
  | Zpos p => S754_finite false p 0
  | Zneg p => S754_finite true p 0
  end.

(** The rational a finite binary64 number stands for, in lowest terms
    (0 for an infinity and for nan). *)
Definition f64_value (x : f64) : Q :=
  match x with
  | S754_finite s m e =>
      let v := if s then Z.neg m else Z.pos m in
      Qred (if 0 <=? e then inject_Z (v * 2 ^ e)
            else v # Pos.pow 2 (Z.to_pos (- e)))
  | _ => 0%Q
  end.

(** [np.sqrt], [np.floor] and [np.ceil] on a [np.float64]. *)
Definition np_sqrt (x : f64) : f64 := SFsqrt f64_prec f64_emax x.

Definition np_floor (x : f64) : f64 :=
  match x with
  | S754_finite s m e =>
      let v := if s then Z.neg m else Z.pos m in
      f64_of_Z (if 0 <=? e then v * 2 ^ e else Z.shiftr v (- e))
  | _ => x
  end.

Definition np_ceil (x : f64) : f64 := SFopp (np_floor (SFopp x)).

(** [x / y] on two [np.float64]: a zero divisor gives nan or an infinity
    and a RuntimeWarning, not an exception. *)
Definition f64_div (x y : f64) : f64 := SFdiv f64_prec f64_emax x y.

(** [int(x)] on a float: the integer part; nan and the infinities raise. *)
Definition py_int (x : f64) : result Z :=
  match x with
  | S754_nan => Err ValueError
  | S754_infinity _ => Err OverflowError
  | S754_zero _ => Ok 0
  | S754_finite s m e =>
      let a := if 0 <=? e then Z.pos m * 2 ^ e else Z.shiftr (Z.pos m) (- e) in
      Ok (if s then - a else a)
  end.

(** [float(n)] as Python does it where an integer meets a float: it raises
    when the integer is too large. *)
Definition py_float (n : Z) : result f64 :=
  match f64_of_Z n with
  | S754_infinity _ => Err OverflowError
  | x => Ok x
  end.

(** [x * n] on a float and a Python integer. *)
Definition py_mul_int (x : f64) (n : Z) : result f64 :=
  rbind (py_float n) (fun y => Ok (SFmul f64_prec f64_emax x y)).

(** ** best_grid *)

(** [np.ceil(N / rows)] on a non-zero [rows], in exact arithmetic. *)
Definition np_ceil_div (N rows : Z) : Z := Qceiling (inject_Z N / inject_Z rows)%Q.

(** The layout in exact arithmetic: the lines
    [rows = np.floor(np.sqrt(N)); cols = np.ceil(N / rows);
    return int(rows), int(cols)] with the square root and the quotient not
    rounded.  For [N = 0] the quotient is 0/0.0 = nan and for [N < 0] the
    square root is nan; [int(nan)] raises ValueError.  This is the layout
    the model of [show_images_grid] uses. *)
Definition best_grid (N : Z) : result (Z * Z) :=
  if N <=? 0 then Err ValueError
  else
    let rows := Z.sqrt N in
    let cols := np_ceil_div N rows in
    Ok (rows, cols).

(** The same lines as binary64 evaluates them.  [np.sqrt(N)] converts the
    integer to float64 (an integer outside the 64-bit range becomes an
    object array, on which [np.sqrt] raises TypeError), [N / rows] divides
    the converted integer by the float64 [rows], and [int] raises on nan. *)
Definition best_grid_f64 (N : Z) : result (Z * Z) :=
  if (N <? - 2 ^ 63) || (2 ^ 64 <=? N) then Err TypeError
  else
    let rows := np_floor (np_sqrt (f64_of_Z N)) in
    let cols := np_ceil (f64_div (f64_of_Z N) rows) in
    rbind (py_int rows) (fun rows =>
    rbind (py_int cols) (fun cols => Ok (rows, cols))).

(** The two layouts are the same for [N]; for every [N] of
    [lo, lo + 2^d). *)
Definition same_layout (N : Z) : bool :=
  match best_grid_f64 N, best_grid N with
  | Ok (r, c), Ok (r', c') => (r =? r') && (c =? c')
  | _, _ => false
  end.

Fixpoint same_layout_from (d : nat) (lo : Z) : bool :=
  match d with
  | O => same_layout lo
  | S d' => same_layout_from d' lo && same_layout_from d' (lo + 2 ^ Z.of_nat d')
  end.

(** The largest batch for which the two layouts are compared. *)
Definition MAX_COMPARED : Z := 16384.

(** ** Elementwise and reduction primitives of numpy *)

(** [np.max(a)]: a zero-size array has no maximum. *)
Definition np_max (a : ndarray) : result Q :=
  match data a with
  | [] => Err ValueError
  | x :: l => Ok (fold_left Qmax l x)
  end.

(** [np.abs(a)] *)
Definition np_abs (a : ndarray) : ndarray := amap Qabs a.

(** [image / (m + eps) * 255].  A zero divisor makes numpy produce inf/nan
    samples, which the model reports as [NonFinite]. *)
Definition scale_by_max (m : Q) (image : ndarray) : result ndarray :=
  (if Qeq_bool (m + eps) 0 then Err NonFinite
  else Ok (amap (fun v => v / (m + eps) * 255) image))%Q.

(** [np.where(image < 0, -image, 0)] *)
Definition where_neg_blue (image : ndarray) : ndarray :=
  amap (fun v => if Qltb v 0 then - v else 0)%Q image.

(** [np.where(image < 0, 0, image)] *)
Definition where_neg_red (image : ndarray) : ndarray :=
  amap (fun v => if Qltb v 0 then 0 else v)%Q image.

(** [np.zeros_like(a)] *)
Definition np_zeros_like (a : ndarray) : ndarray := amap (fun _ => 0%Q) a.

(** [a[:, :, 0]] for an array whose third axis has length 1: the axis goes
    and the samples stay in place. *)
Definition index_axis2_0 (a : ndarray) : ndarray :=
  mkArr (dt a) (firstn 2 (shape a) ++ skipn 3 (shape a)) (data a).

Fixpoint interleave3 (b g r : list Q) : list Q :=
  match b, g, r with
  | x :: b', y :: g', z :: r' => x :: y :: z :: interleave3 b' g' r'
  | _, _, _ => []
  end.

(** [np.stack([b, g, r], axis=-1)] of three arrays of one shape. *)
Definition np_stack3_last (b g r : ndarray) : ndarray :=
  mkArr (dt b) (shape b ++ [3%nat]) (interleave3 (data b) (data g) (data r)).

(** [images.squeeze(axis=-1)]: the last axis must have length 1. *)
Definition squeeze_last (a : ndarray) : result ndarray :=
  match rev (shape a) with
  | [] => Err ValueError
  | d :: s => if Nat.eqb d 1 then Ok (mkArr (dt a) (rev s) (data a))
              else Err ValueError
  end.

(** [images[n, :, :]] of a batch of [h] x [w] images. *)
Definition take_image (images : ndarray) (n h w : nat) : ndarray :=
  mkArr (dt images) [h; w] (firstn (h * w) (skipn (n * (h * w)) (data images))).

(** [np.ones([h, w]) * v]: negative dimensions are not allowed. *)
Definition np_full2 (h w : Z) (v : Q) : result ndarray :=
  if (h <? 0) || (w <? 0) then Err ValueError
  else Ok (mkArr Float64 [Z.to_nat h; Z.to_nat w]
                 (repeat v (Z.to_nat h * Z.to_nat w))).

(** Sample [(y, x)] of a 2-dimensional array. *)
Definition get2 (a : ndarray) (y x : Z) : Q :=
  nth (Z.to_nat (y * Z.of_nat (nth 1 (shape a) 0%nat) + x)) (data a) 0%Q.

(** A bound of a slice along an axis of length [d]: negative bounds count
    from the end, and every bound is clipped to the axis. *)
Definition slice_index (d i : Z) : Z :=
  if i <? 0 then Z.max 0 (i + d) else Z.min i d.

(** Broadcasting of an assigned value against a 2-dimensional target: leading
    axes of length 1 beyond the second are dropped, missing leading axes
    count as length 1. *)
Fixpoint strip_leading_ones (s : list nat) : list nat :=
  match s with
  | 1%nat :: s' => if Nat.ltb 2 (length s) then strip_leading_ones s' else s
  | _ => s
  end.

Definition broadcast_shape2 (s : list nat) : option (Z * Z) :=
  match strip_leading_ones s with
  | [] => Some (1, 1)
  | [w] => Some (1, Z.of_nat w)
  | [h; w] => Some (Z.of_nat h, Z.of_nat w)
  | _ => None
  end.

Definition fits (vlen tlen : Z) : bool := (vlen =? tlen) || (vlen =? 1).

(** [grid[h0:h1, w0:w1] = v] as a new array. *)
Definition setitem_slice2 (grid : ndarray) (h0 h1 w0 w1 : Z) (v : ndarray)
  : result ndarray :=
  match shape grid with
  | [H; W] =>
      let H := Z.of_nat H in
      let W := Z.of_nat W in
      let a := slice_index H h0 in
      let b := slice_index H h1 in
      let c := slice_index W w0 in
      let d := slice_index W w1 in
      match broadcast_shape2 (shape v) with
      | Some (vh, vw) =>
          if fits vh (Z.max 0 (b - a)) && fits vw (Z.max 0 (d - c)) then
            Ok (mkArr (dt grid) (shape grid)
                  (map (fun k =>
                          let y := Z.of_nat k / W in
                          let x := Z.of_nat k mod W in
                          if (a <=? y) && (y <? b) && (c <=? x) && (x <? d)
                          then nth (Z.to_nat ((if vh =? 1 then 0 else y - a) * vw
                                              + (if vw =? 1 then 0 else x - c)))
                                   (data v) 0%Q
                          else nth k (data grid) 0%Q)
                       (seq 0 (length (data grid)))))
          else Err ValueError
      | None => Err ValueError
      end
  | _ => Err IndexError
  end.

(** The nearest integer of a rational, ties to even. *)
Definition py_round (x : Q) : Z :=
  let f := Qfloor x in
  match (x - inject_Z f ?= 1 # 2)%Q with
  | Lt => f
  | Gt => f + 1
  | Eq => if Z.even f then f else f + 1
  end.

(** [round(x)] of Python 3 on a float: the nearest integer of its value,
    ties to even; nan and the infinities raise. *)
Definition py_round_float (x : f64) : result Z :=
  match x with
  | S754_nan => Err ValueError
  | S754_infinity _ => Err OverflowError
  | _ => Ok (py_round (f64_value x))
  end.

(** [a / b] on Python integers: the binary64 number nearest to the
    quotient of the two integers. *)
Definition py_truediv (a b : Z) : result f64 :=
  if b =? 0 then Err ZeroDivisionError
  else
    match f64_div (f64_exact a) (f64_exact b) with
    | S754_infinity _ | S754_nan => Err OverflowError
    | q => Ok q
    end.

(** [range(n)] *)
Definition range (n : Z) : list Z := map Z.of_nat (seq 0 (Z.to_nat n)).

(** ** sign encoding *)

(** [visualize_grayscale_negative_values(image)] *)
Definition visualize_grayscale_negative_values (image : ndarray)
  : result ndarray :=
  if negb (is_floating (dt image)) then Err AssertionError
  else
    let image :=
      if Nat.eqb (ndim image) 2
      then mkArr (dt image) (shape image ++ [1%nat]) (data image)
      else image in
    match nth_error (shape image) 2 with
    | None => Err IndexError
    | Some c =>
        if negb (Nat.eqb c 1) then Err AssertionError
        else
          let blue := where_neg_blue image in
          let green := np_zeros_like blue in
          let red := where_neg_red image in
          Ok (np_stack3_last (index_axis2_0 blue) (index_axis2_0 green)
                             (index_axis2_0 red))
    end.

(** ** External calls and the trace *)

(** The OpenCV primitives the module calls.  [cv2_resize fx fy img] is
    [cv2.resize(img, None, fx=fx, fy=fy, interpolation=cv2.INTER_NEAREST)]
    and [cv2_waitKey ms] is the key code [cv2.waitKey(ms)] reports (-1 when
    no key was pressed within the wait). *)
Class Cv2 : Type := {
  cv2_resize : Q -> Q -> ndarray -> result ndarray;
  cv2_waitKey : Z -> Z
}.

Inductive event : Type :=
| EvResize (fx fy : Q) (img : ndarray)   (* cv2.resize was called *)
| EvLogDebug                             (* _logger.debug was called *)
| EvImshow (img : ndarray)               (* cv2.imshow('image', img) *)
| EvWaitKey (ms : Z).                    (* cv2.waitKey(ms) *)

Definition is_resize (e : event) : bool :=
  match e with
  | EvResize _ _ _ => true
  | _ => false
  end.

(** A computation extends the trace of external calls and returns or
    raises. *)
Definition M (A : Type) : Type := list event -> list event * result A.

Definition ret {A} (a : A) : M A := fun tr => (tr, Ok a).

Definition bind {A B} (m : M A) (k : A -> M B) : M B :=
  fun tr =>
    match m tr with
    | (tr', Ok a) => k a tr'
    | (tr', Err e) => (tr', Err e)
    end.

Definition lift {A} (r : result A) : M A := fun tr => (tr, r).

Definition emit (e : event) : M unit := fun tr => (tr ++ [e], Ok tt).

Declare Scope py_scope.
Delimit Scope py_scope with py.
Notation "x <- m ;; k" := (bind m (fun x => k))
  (at level 61, m at next level, right associativity) : py_scope.
Notation "m ;;; k" := (bind m (fun _ => k))
  (at level 61, right associativity) : py_scope.
Local Open Scope py_scope.

(** [assert c] *)
Definition py_assert (c : bool) : M unit :=
  if c then ret tt else lift (Err AssertionError).

Definition resize_call `{Cv2} (fx fy : Q) (img : ndarray) : M ndarray :=
  emit (EvResize fx fy img) ;;; lift (cv2_resize fx fy img).

Definition waitKey_call `{Cv2} (ms : Z) : M Z :=
  emit (EvWaitKey ms) ;;; ret (cv2_waitKey ms).

Fixpoint foldM {S A} (f : S -> A -> M S) (l : list A) (s : S) : M S :=
  match l with
  | [] => ret s
  | a :: l' => s' <- f s a ;; foldM f l' s'
  end.

(** ** show_image *)

(** The [wait] argument: a boolean or a number of milliseconds. *)
Inductive wait_arg : Type :=
| WaitBool (b : bool)
| WaitMs (ms : Z).

(** [(0 if wait else 1) if isinstance(wait, bool) else wait] *)
Definition wait_ms_of (wait : wait_arg) : Z :=
  match wait with
  | WaitBool b => if b then 0 else 1
  | WaitMs ms => ms
  end.

(** [len(image[image < 0]) > 0] *)
Definition has_negative (image : ndarray) : bool :=
  existsb (fun v => Qltb v 0) (data image).

(** [k in [27, ord('q')]] *)
Definition in_quit_keys (k : Z) : bool := (k =? KEY_ESCAPE) || (k =? KEY_q).

(** The first part of [show_image]: the dtype assertion, the optional
    normalisation by the raw maximum and the optional resize. *)
Definition prepare_image `{Cv2} (image : ndarray)
    (resize_to_fit normalize : bool) : M ndarray :=
  py_assert (is_floating (dt image)) ;;;
  image <- (if normalize
            then m <- lift (np_max image) ;; lift (scale_by_max m image)
            else ret image) ;;
  if resize_to_fit
  then
    h <- lift (match shape image with
               | [] => Err IndexError
               | h :: _ => Ok h
               end) ;;
    height_scaling <- lift (py_truediv DESIRED_HEIGHT (Z.of_nat h)) ;;
    resize_call (f64_value height_scaling) (f64_value height_scaling) image
  else ret image.

Definition show_image `{Cv2} (image : ndarray) (wait : wait_arg)
    (resize_to_fit normalize visualize_negative : bool) : M bool :=
  image <- prepare_image image resize_to_fit normalize ;;
  image <- (if visualize_negative && has_negative image
            then emit EvLogDebug ;;;
                 lift (visualize_grayscale_negative_values image)
            else ret image) ;;
  emit (EvImshow (amap (fun v => v / 255)%Q image)) ;;;
  k <- waitKey_call (wait_ms_of wait) ;;
  ret (negb (in_quit_keys k)).

(** ** show_images_grid *)

(** The sizes computed between the layout and the allocation of the grid
    image (the local variables of the same names). *)
Record geometry : Type := mkGeom {
  n_images : Z;
  n_rows : Z;
  n_cols : Z;
  img_height : nat;
  img_width : nat;
  total_row_padding : Z;
  total_col_padding : Z;
  height_scaling : Q;
  width_scaling : Q;
  new_height : Z;
  new_width : Z
}.

(** From [n_images = images.shape[0]] to the choice of [new_height] and
    [new_width], on the batch without its channel axis.  [layout] is the
    function called for the layout, [best_grid].  The scale factors are
    binary64 numbers; the geometry holds their values. *)
Definition grid_geometry_with (layout : Z -> result (Z * Z))
    (images : ndarray) (padding : Z) (resize_to_fit : bool) : result geometry :=
  match shape images with
  | [] => Err IndexError
  | n :: hw =>
      let n_images := Z.of_nat n in
      rbind (layout n_images) (fun '(n_rows, n_cols) =>
      match hw with
      | [img_height; img_width] =>
          let total_row_padding := (n_rows + 1) * padding in
          let total_col_padding := (n_cols + 1) * padding in
          let total_images_height := n_rows * Z.of_nat img_height in
          rbind (py_truediv (DESIRED_HEIGHT - total_row_padding)
                            total_images_height) (fun height_scaling =>
          let width_scaling := height_scaling in
          rbind (if resize_to_fit
                 then
                   rbind (py_mul_int height_scaling (Z.of_nat img_height))
                         (fun scaled_height =>
                   rbind (py_round_float scaled_height) (fun new_height =>
                   rbind (py_mul_int width_scaling (Z.of_nat img_width))
                         (fun scaled_width =>
                   rbind (py_round_float scaled_width) (fun new_width =>
                   Ok (new_height, new_width)))))
                 else Ok (Z.of_nat img_height, Z.of_nat img_width))
                (fun '(new_height, new_width) =>
          Ok (mkGeom n_images n_rows n_cols img_height img_width
                     total_row_padding total_col_padding
                     (f64_value height_scaling) (f64_value width_scaling)
                     new_height new_width)))
      | _ => Err ValueError   (* img_height, img_width = images.shape[1:] *)
      end)
  end.

(** The geometry in the model of [show_images_grid]: the layout is the
    exact one. *)
Definition grid_geometry (images : ndarray) (padding : Z)
    (resize_to_fit : bool) : result geometry :=
  grid_geometry_with best_grid images padding resize_to_fit.

(** The [resize] lambda chosen by [resize_to_fit]. *)
Definition resize `{Cv2} (resize_to_fit : bool) (g : geometry)
    (img : ndarray) : M ndarray :=
  if resize_to_fit
  then resize_call (width_scaling g) (height_scaling g) img
  else ret img.

Definition base_height (g : geometry) (padding row : Z) : Z :=
  (row + 1) * padding + row * new_height g.

Definition base_width (g : geometry) (padding col : Z) : Z :=
  (col + 1) * padding + col * new_width g.

(** The body of the two nested loops for one [(row, col)]. *)
Definition place_cell `{Cv2} (images : ndarray) (g : geometry) (padding : Z)
    (resize_to_fit normalize : bool) (grid_image : ndarray) (rc : Z * Z)
  : M ndarray :=
  let '(row, col) := rc in
  let n := row * n_cols g + col in
  if n >=? n_images g then ret grid_image
  else
    image <- resize resize_to_fit g
               (take_image images (Z.to_nat n) (img_height g) (img_width g)) ;;
    let bh := base_height g padding row in
    let bw := base_width g padding col in
    image <- (if normalize
              then m <- lift (np_max (np_abs image)) ;;
                   lift (scale_by_max m image)
              else ret image) ;;
    lift (setitem_slice2 grid_image bh (bh + new_height g)
                         bw (bw + new_width g) image).

(** [(row, col)] in the order of the nested loops. *)
Definition cells (g : geometry) : list (Z * Z) :=
  flat_map (fun row => map (fun col => (row, col)) (range (n_cols g)))
           (range (n_rows g)).

(** The assertion on [images.ndim].  The message is formatted with
    ['...%s' % images.shape]: a one-element shape formats, any other shape
    of a rejected array makes the formatting itself raise TypeError. *)
Definition assert_ndim (images : ndarray) : M unit :=
  if Nat.eqb (ndim images) 3 || Nat.eqb (ndim images) 4 then ret tt
  else if Nat.eqb (ndim images) 1 then lift (Err AssertionError)
  else lift (Err TypeError).

(** [show_images_grid] up to the assembled [grid_image] (all of the function
    but its final call of [show_image]); the geometry is returned with it. *)
Definition assemble_grid `{Cv2} (images : ndarray) (padding : Z)
    (resize_to_fit normalize : bool) : M (geometry * ndarray) :=
  assert_ndim images ;;;
  images <- lift (squeeze_last images) ;;
  g <- lift (grid_geometry images padding resize_to_fit) ;;
  grid_image <- lift (np_full2 (n_rows g * new_height g + total_row_padding g)
                               (n_cols g * new_width g + total_col_padding g)
                               DEFAULT_BACKGROUND_COLOR) ;;
  grid_image <- foldM (place_cell images g padding resize_to_fit normalize)
                      (cells g) grid_image ;;
  ret (g, grid_image).

Definition show_images_grid `{Cv2} (images : ndarray) (wait : wait_arg)
    (padding : Z) (resize_to_fit normalize visualize_negative : bool)
  : M bool :=
  gi <- assemble_grid images padding resize_to_fit normalize ;;
  show_image (snd gi) wait false false visualize_negative.

(** ** Predicates on computations *)

(** A computation only appends to the trace. *)
Definition extends {A} (m : M A) : Prop :=
  forall tr, exists rest, fst (m tr) = tr ++ rest.

(** The first external call of a computation is [e]. *)
Definition emits_first {A} (e : event) (m : M A) : Prop :=
  forall tr, exists rest, fst (m tr) = tr ++ e :: rest.

(** ** Regions of the grid image *)

(** The placement rectangle of cell [(row, col)]:
    [base_height <= y < base_height + new_height] and the same in width. *)
Definition in_cell (g : geometry) (padding row col y x : Z) : Prop :=
  base_height g padding row <= y < base_height g padding row + new_height g /\
  base_width g padding col <= x < base_width g padding col + new_width g.

(** The samples the assignment of cell [(row, col)] writes in a grid image
    of [H] rows and [W] columns: the two slices after clipping. *)
Definition written (g : geometry) (padding H W : Z) (rc : Z * Z) (y x : Z)
  : Prop :=
  let bh := base_height g padding (fst rc) in
  let bw := base_width g padding (snd rc) in
  slice_index H bh <= y < slice_index H (bh + new_height g) /\
  slice_index W bw <= x < slice_index W (bw + new_width g).

(** The cell has an image: [n < n_images]. *)
Definition placed (g : geometry) (rc : Z * Z) : Prop :=
  fst rc * n_cols g + snd rc < n_images g.

(** [n >= n_images], the test of the loop body. *)
Definition unplaced (g : geometry) (rc : Z * Z) : bool :=
  fst rc * n_cols g + snd rc >=? n_images g.

(** ** Kinds of external calls *)

(** The two calls that present a window: [cv2.imshow] and [cv2.waitKey]. *)
Definition is_display (e : event) : bool :=
  match e with
  | EvImshow _ | EvWaitKey _ => true
  | _ => false
  end.

(** A computation only appends events that satisfy [P]. *)
Definition appends {A} (P : event -> Prop) (m : M A) : Prop :=
  forall tr, exists rest, fst (m tr) = tr ++ rest /\ Forall P rest.

(** The resize call the loop of [show_images_grid] makes for image [n]. *)
Definition resize_event (images : ndarray) (g : geometry) (n : nat) : event :=
  EvResize (width_scaling g) (height_scaling g)
           (take_image images n (img_height g) (img_width g)).

(** The linear index [row * n_cols + col] of a cell. *)
Definition cell_index (g : geometry) (rc : Z * Z) : Z :=
  fst rc * n_cols g + snd rc.

(** ** Stand-ins for OpenCV and sample inputs

    [cv2_pressing k] is an OpenCV whose [waitKey] reports key [k] and whose
    [resize] raises, which is what [cv2.resize] does on a scale factor that
    is not positive. *)

Definition cv2_pressing (k : Z) : Cv2 :=
  {| cv2_resize := fun _ _ _ => Err Cv2Error; cv2_waitKey := fun _ => k |}.

(** No key within the wait. *)
Definition NO_KEY : Z := -1.

(** A float32 batch of shape [n, h, w, 1] with every sample equal to [v]. *)
Definition const_batch4 (n h w : nat) (v : Q) : ndarray :=
  mkArr Float32 [n; h; w; 1%nat] (repeat v (n * h * w)).

(** A float32 batch of shape [n, h, w] with every sample equal to [v]. *)
Definition const_batch3 (n h w : nat) (v : Q) : ndarray :=
  mkArr Float32 [n; h; w] (repeat v (n * h * w)).

(** A float64 image of shape [h, w]. *)
Definition image2 (h w : nat) (samples : list Q) : ndarray :=
  mkArr Float64 [h; w] samples.

(** Seven 1x1 images of value 0 with padding 1 and no resize: the
    geometry and the grid image the assembly returns. *)
Definition sample_geometry7 : geometry :=
  mkGeom 7 2 4 1 1 3 5 (497 # 2) (497 # 2) 1 1.

Definition sample_canvas7 : ndarray :=
  Eval vm_compute in
    match snd (assemble_grid (H := cv2_pressing NO_KEY) (const_batch4 7 1 1 0)
                             1 false false []) with
    | Ok (_, canvas) => canvas
    | Err _ => mkArr Float64 [] []
    end.

(** An OpenCV whose [resize] returns an image of the size it was given,
    as [cv2.resize] does at scale 1, and one 500x1 image shown at that
    scale: the run of the assembly and its geometry. *)
Definition cv2_same_size (k : Z) : Cv2 :=
  {| cv2_resize := fun _ _ img => Ok img; cv2_waitKey := fun _ => k |}.

Definition sample_fit_geometry : geometry :=
  mkGeom 1 1 1 500 1 0 0 1 1 500 1.

Definition sample_fit_run : list event * result (geometry * ndarray) :=
  Eval vm_compute in
    assemble_grid (H := cv2_same_size NO_KEY) (const_batch4 1 500 1 0) 0
                  true false [].

(** Four 2x2 images with the samples 0, 1, ..., 15 and the grid image
    assembled from them with padding 1 and no resize. *)
Definition sample_batch4 : ndarray :=
  mkArr Float32 [4; 2; 2; 1]%nat
        (map (fun k => inject_Z (Z.of_nat k)) (seq 0 16)).

Definition sample_geometry4 : geometry :=
  mkGeom 4 2 2 2 2 3 3 (497 # 4) (497 # 4) 2 2.

Definition sample_canvas4 : ndarray :=
  Eval vm_compute in
    match snd (assemble_grid (H := cv2_pressing NO_KEY) sample_batch4
                             1 false false []) with
    | Ok (_, canvas) => canvas
    | Err _ => mkArr Float64 [] []
    end.

(** * Properties *)

(** ** Auxiliary facts *)

Lemma Qltb_lt x y : Qltb x y = true <-> (x < y)%Q.
Proof.
  unfold Qltb. rewrite negb_true_iff. split; intros H.
  - apply Qnot_le_lt. intros C. apply Qle_bool_iff in C. congruence.
  - destruct (Qle_bool y x) eqn:E; [|reflexivity].
    apply Qle_bool_iff in E. exfalso. apply (Qlt_not_le _ _ H E).
Qed.

Lemma Qltb_ge x y : Qltb x y = false <-> (y <= x)%Q.
Proof.
  unfold Qltb. rewrite negb_false_iff. apply Qle_bool_iff.
Qed.

(** The ceiling of a quotient of integers, in integer terms. *)
Lemma np_ceil_div_spec (n r : Z) :
  0 < r -> (np_ceil_div n r - 1) * r < n <= np_ceil_div n r * r.
Proof.
  intros Hr. unfold np_ceil_div, Qceiling.
  assert (E : Qfloor (- (inject_Z n / inject_Z r)) = (- n) / r).
  { rewrite Zdiv_Qdiv. apply Qfloor_comp.
    rewrite inject_Z_opp. unfold Qdiv. ring. }
  rewrite E.
  pose proof (Z.div_mod (- n) r ltac:(lia)) as D.
  pose proof (Z.mod_pos_bound (- n) r Hr) as B.
  nia.
Qed.

(** ** Grid layout *)

(** The layout in exact arithmetic: [rows] is the integer square root of
    [N] and [cols] the ceiling of [N / rows]. *)
Lemma best_grid_exact (N : Z) :
  1 <= N ->
  exists rows cols,
    best_grid N = Ok (rows, cols) /\
    rows * rows <= N < (rows + 1) * (rows + 1) /\
    (cols - 1) * rows < N <= cols * rows /\
    1 <= rows /\ N <= rows * cols /\ rows <= cols.
Proof.
  intros HN. exists (Z.sqrt N), (np_ceil_div N (Z.sqrt N)).
  assert (Hs : 0 < Z.sqrt N) by (apply Z.sqrt_pos; lia).
  pose proof (Z.sqrt_spec N ltac:(lia)) as S.
  pose proof (np_ceil_div_spec N (Z.sqrt N) Hs) as C.
  unfold Z.succ in S.
  repeat split; try lia.
  - unfold best_grid. destruct (Z.leb_spec N 0); [lia | reflexivity].
  - nia.
Qed.

Lemma same_layout_from_sound (d : nat) :
  forall lo N,
    same_layout_from d lo = true ->
    lo <= N < lo + 2 ^ Z.of_nat d -> same_layout N = true.
Proof.
  induction d as [|d IH]; intros lo N C B.
  - simpl in C, B. assert (N = lo) by lia. now subst N.
  - cbn [same_layout_from] in C. apply andb_prop in C. destruct C as (C1 & C2).
    rewrite Nat2Z.inj_succ, Z.pow_succ_r in B by lia.
    destruct (Z.lt_ge_cases N (lo + 2 ^ Z.of_nat d)) as [L|G].
    + apply (IH lo); [exact C1 | lia].
    + apply (IH (lo + 2 ^ Z.of_nat d)); [exact C2 | lia].
Qed.

(** binary64 evaluates the layout of every batch of 1 to 16384 images
    without a rounding that shows: each of these batches is evaluated. *)
Lemma same_layout_compared : same_layout_from 14 1 = true.
Proof. vm_compute. reflexivity. Qed.

Lemma best_grid_f64_exact (N : Z) :
  1 <= N <= MAX_COMPARED -> best_grid_f64 N = best_grid N.
Proof.
  intros B.
  assert (S : same_layout N = true).
  { apply (same_layout_from_sound 14 1); [exact same_layout_compared|].
    unfold MAX_COMPARED in B. simpl. lia. }
  unfold same_layout in S.
  destruct (best_grid_f64 N) as [[r c]|]; [|discriminate].
  destruct (best_grid N) as [[r' c']|]; [|discriminate].
  apply andb_prop in S. destruct S as (Er & Ec).
  apply Z.eqb_eq in Er, Ec. now subst.
Qed.




(** ** Presenter *)

Lemma show_image_returns `{Cv2} image wait rtf norm vn tr tr' b :
  show_image image wait rtf norm vn tr = (tr', Ok b) ->
  b = negb (in_quit_keys (cv2_waitKey (wait_ms_of wait))).
Proof.
  unfold show_image, bind. intros R.
  destruct (prepare_image image rtf norm tr) as [t1 [img|e]]; [|discriminate].
  destruct (vn && has_negative img).
  - unfold emit, lift in R.
    destruct (visualize_grayscale_negative_values img); [|discriminate].
    unfold waitKey_call, bind, emit, ret in R. now inversion R.
  - unfold ret, emit, waitKey_call, bind in R. now inversion R.
Qed.

(** C1 (as the code has it): whenever [show_image] returns, the boolean is
    the negation of "the reported key is escape (27) or 'q'": escape and 'q'
    give False, any other key and no key give True. *)
Theorem show_image_quit_flag (cv : Cv2) image wait rtf norm vn tr tr' b :
  show_image image wait rtf norm vn tr = (tr', Ok b) ->
  (b = true <-> cv2_waitKey (wait_ms_of wait) <> KEY_ESCAPE /\
                cv2_waitKey (wait_ms_of wait) <> KEY_q).
Proof.
  intros R. apply show_image_returns in R. subst b.
  unfold in_quit_keys. rewrite negb_true_iff, orb_false_iff.
  rewrite !Z.eqb_neq. reflexivity.
Qed.

Lemma show_image_quit_flag_witness :
  show_image (H := cv2_pressing KEY_ESCAPE) (image2 1 1 [1%Q])
             (WaitBool true) false false true []
  = ([EvImshow (image2 1 1 [(1 / 255)%Q]); EvWaitKey 0], Ok false) /\
  (false = true <-> KEY_ESCAPE <> KEY_ESCAPE /\ KEY_ESCAPE <> KEY_q).
Proof.
  split; [reflexivity|].
  apply (show_image_quit_flag (cv2_pressing KEY_ESCAPE) (image2 1 1 [1%Q])
           (WaitBool true) false false true []
           [EvImshow (image2 1 1 [(1 / 255)%Q]); EvWaitKey 0] false).
  reflexivity.
Defined.

(** ** Accepted batch shapes *)

Lemma squeeze_last_4d (images : ndarray) n h w :
  shape images = [n; h; w; 1%nat] ->
  squeeze_last images = Ok (mkArr (dt images) [n; h; w] (data images)).
Proof. intros E. unfold squeeze_last. rewrite E. reflexivity. Qed.

Lemma grid_geometry_2d (images : ndarray) n h padding rtf :
  shape images = [n; h] ->
  grid_geometry images padding rtf = Err ValueError.
Proof.
  intros E. unfold grid_geometry, grid_geometry_with. rewrite E.
  unfold best_grid. destruct (Z.of_nat n <=? 0); reflexivity.
Qed.

(** C2 (as the code has it): a batch of shape [N, H, W, 1] passes the
    assertion and loses its channel axis; a 3-dimensional batch passes the
    assertion too but the squeeze of its last axis is unconditional, so the
    call raises ValueError before any external call; any other number of
    dimensions raises at the assertion. *)
Theorem show_images_grid_ndim (cv : Cv2) images wait padding rtf norm vn tr :
  (forall n h w, shape images = [n; h; w; 1%nat] ->
     squeeze_last images = Ok (mkArr (dt images) [n; h; w] (data images))) /\
  (ndim images = 3%nat ->
     show_images_grid images wait padding rtf norm vn tr
     = (tr, Err ValueError)) /\
  (ndim images <> 3%nat -> ndim images <> 4%nat ->
     exists e, show_images_grid images wait padding rtf norm vn tr
               = (tr, Err e) /\ (e = AssertionError \/ e = TypeError)).
Proof.
  split; [|split].
  - intros n h w E. now apply squeeze_last_4d.
  - intros D. unfold ndim in D.
    destruct (shape images) as [|n [|h [|w [|c s]]]] eqn:E; try discriminate.
    unfold show_images_grid, assemble_grid, bind, assert_ndim, ndim.
    rewrite E. simpl. unfold lift, squeeze_last. rewrite E. simpl.
    destruct (Nat.eqb w 1); [|reflexivity].
    rewrite (grid_geometry_2d _ n h); reflexivity.
  - intros D3 D4. unfold show_images_grid, assemble_grid, bind, assert_ndim.
    destruct (Nat.eqb_spec (ndim images) 3); [contradiction|].
    destruct (Nat.eqb_spec (ndim images) 4); [contradiction|].
    simpl. destruct (Nat.eqb (ndim images) 1).
    + exists AssertionError. split; [reflexivity | now left].
    + exists TypeError. split; [reflexivity | now right].
Qed.

Lemma show_images_grid_ndim_witness :
  show_images_grid (H := cv2_pressing NO_KEY) (const_batch3 2 3 3 1)
                   (WaitBool true) 1 true false true []
  = ([], Err ValueError).
Proof.
  apply (show_images_grid_ndim (cv2_pressing NO_KEY) (const_batch3 2 3 3 1)
           (WaitBool true) 1 true false true []).
  reflexivity.
Defined.

(** ** Sign encoding *)

Lemma interleave3_length {A} (f g h : A -> Q) (d : list A) :
  length (interleave3 (map f d) (map g d) (map h d)) = (3 * length d)%nat.
Proof. induction d as [|x d IH]; simpl; [reflexivity | rewrite IH; lia]. Qed.

Lemma interleave3_nth {A} (f g h : A -> Q) (d : list A) (i : nat) (v : A) :
  nth_error d i = Some v ->
  nth_error (interleave3 (map f d) (map g d) (map h d)) (3 * i) = Some (f v) /\
  nth_error (interleave3 (map f d) (map g d) (map h d)) (3 * i + 1) = Some (g v) /\
  nth_error (interleave3 (map f d) (map g d) (map h d)) (3 * i + 2) = Some (h v).
Proof.
  revert i. induction d as [|x d IH]; intros [|i] E; simpl in E; try discriminate.
  - inversion E; subst. simpl. auto.
  - replace (3 * S i)%nat with (S (S (S (3 * i)))) by lia.
    simpl. apply IH, E.
Qed.

Lemma blue_is_max (v : Q) : ((if Qltb v 0 then - v else 0) == Qmax (- v) 0)%Q.
Proof.
  destruct (Qltb v 0) eqn:E.
  - apply Qltb_lt in E. symmetry. apply Q.max_l.
    apply Qlt_le_weak in E. apply Qopp_le_compat in E. exact E.
  - apply Qltb_ge in E. symmetry. apply Q.max_r.
    apply Qopp_le_compat in E. exact E.
Qed.

Lemma red_is_max (v : Q) : ((if Qltb v 0 then 0 else v) == Qmax v 0)%Q.
Proof.
  destruct (Qltb v 0) eqn:E.
  - apply Qltb_lt in E. symmetry. apply Q.max_r. now apply Qlt_le_weak.
  - apply Qltb_ge in E. symmetry. now apply Q.max_l.
Qed.

Lemma visualize_data (image : ndarray) :
  is_floating (dt image) = true ->
  nth_error (if Nat.eqb (ndim image) 2 then shape image ++ [1%nat]
             else shape image) 2 = Some 1%nat ->
  exists out,
    visualize_grayscale_negative_values image = Ok out /\
    data out = interleave3
                 (map (fun v => if Qltb v 0 then - v else 0)%Q (data image))
                 (map (fun _ => 0%Q) (data image))
                 (map (fun v => if Qltb v 0 then 0 else v)%Q (data image)) /\
    shape out =
      (let s := if Nat.eqb (ndim image) 2 then shape image ++ [1%nat]
                else shape image in
       (firstn 2 s ++ skipn 3 s) ++ [3%nat]).
Proof.
  intros F E. unfold visualize_grayscale_negative_values. rewrite F. simpl.
  destruct (Nat.eqb (ndim image) 2); simpl in *; rewrite E; simpl;
    eexists; (split; [reflexivity|]); simpl; rewrite map_map; auto.
Qed.

(** C5: on a floating-point image of shape [h, w] or [h, w, 1] the result
    has shape [h, w, 3] and, for the sample [v] at flat position [i], holds
    blue = max(-v, 0), green = 0, red = max(v, 0) at positions [3i], [3i+1],
    [3i+2]; a non-floating-point input and an input with more than one
    channel fail the assertions. *)
Theorem visualize_grayscale_negative_values_spec (image : ndarray) :
  (is_floating (dt image) = false ->
   visualize_grayscale_negative_values image = Err AssertionError) /\
  (is_floating (dt image) = true ->
   forall h w c, shape image = [h; w; c] -> c <> 1%nat ->
   visualize_grayscale_negative_values image = Err AssertionError) /\
  (is_floating (dt image) = true ->
   forall h w, shape image = [h; w] \/ shape image = [h; w; 1%nat] ->
   exists out,
     visualize_grayscale_negative_values image = Ok out /\
     shape out = [h; w; 3%nat] /\
     length (data out) = (3 * length (data image))%nat /\
     forall i v, nth_error (data image) i = Some v ->
       exists blue red,
         nth_error (data out) (3 * i) = Some blue /\
         nth_error (data out) (3 * i + 1) = Some 0%Q /\
         nth_error (data out) (3 * i + 2) = Some red /\
         (blue == Qmax (- v) 0)%Q /\ (red == Qmax v 0)%Q).
Proof.
  split; [|split].
  - intros F. unfold visualize_grayscale_negative_values. now rewrite F.
  - intros F h w c E C. unfold visualize_grayscale_negative_values, ndim.
    rewrite F, E. simpl. rewrite E. simpl.
    destruct (Nat.eqb_spec c 1); [contradiction|].
    reflexivity.
  - intros F h w S.
    destruct (visualize_data image F) as (out & R & D & Sh).
    { unfold ndim. destruct S as [E|E]; rewrite E; reflexivity. }
    exists out. split; [exact R|]. split; [|split].
    + rewrite Sh. unfold ndim. destruct S as [E|E]; rewrite E; reflexivity.
    + rewrite D. apply interleave3_length.
    + intros i v Hv. rewrite D.
      destruct (interleave3_nth
                  (fun v => if Qltb v 0 then - v else 0)%Q (fun _ => 0%Q)
                  (fun v => if Qltb v 0 then 0 else v)%Q _ i v Hv)
        as (B & G & Rd).
      exists (if Qltb v 0 then - v else 0)%Q, (if Qltb v 0 then 0 else v)%Q.
      split; [exact B|]. split; [exact G|]. split; [exact Rd|].
      split; [apply blue_is_max | apply red_is_max].
Qed.

Lemma visualize_grayscale_negative_values_spec_witness :
  exists out,
    visualize_grayscale_negative_values (image2 1 2 [(-2)%Q; 3%Q]) = Ok out /\
    shape out = [1; 2; 3]%nat /\
    data out = [2; 0; 0; 0; 0; 3]%Q.
Proof.
  destruct (visualize_grayscale_negative_values_spec (image2 1 2 [(-2)%Q; 3%Q]))
    as (_ & _ & P).
  destruct (P eq_refl 1%nat 2%nat (or_introl eq_refl)) as (out & R & S & _).
  exists out. split; [exact R|]. split; [exact S|].
  vm_compute in R. inversion R. reflexivity.
Defined.

(** ** The gate before the sign encoding *)

Lemma has_negative_iff (a : ndarray) :
  has_negative a = true <-> exists v, In v (data a) /\ (v < 0)%Q.
Proof.
  unfold has_negative. rewrite existsb_exists.
  split; intros (v & I & L); exists v; (split; [exact I|]); now apply Qltb_lt.
Qed.

Lemma has_negative_none (a : ndarray) :
  has_negative a = false <-> forall v, In v (data a) -> (0 <= v)%Q.
Proof.
  split.
  - intros N v I. apply Qltb_ge.
    destruct (Qltb v 0) eqn:E; [|reflexivity].
    assert (T : has_negative a = true)
      by (apply has_negative_iff; exists v; split; [exact I | now apply Qltb_lt]).
    congruence.
  - intros P. destruct (has_negative a) eqn:E; [|reflexivity].
    apply has_negative_iff in E. destruct E as (v & I & L).
    exfalso. apply (Qlt_not_le _ _ L). now apply P.
Qed.

(** C10: let [buf] be the buffer after the optional normalisation and
    resize.  If [buf] has no strictly negative sample, [show_image] shows
    [buf / 255] with the shape of [buf], whatever [visualize_negative] is;
    the 3-channel encoding (and the debug log line) happens only when
    [visualize_negative] is true and some sample of [buf] is negative. *)
Theorem show_image_encodes_only_negatives (cv : Cv2) image wait rtf norm tr tr1 buf :
  prepare_image image rtf norm tr = (tr1, Ok buf) ->
  let shown b := (tr1 ++ [EvImshow (amap (fun v => v / 255)%Q b);
                          EvWaitKey (wait_ms_of wait)],
                  Ok (negb (in_quit_keys (cv2_waitKey (wait_ms_of wait))))) in
  ((forall v, In v (data buf) -> (0 <= v)%Q) ->
   forall vn, show_image image wait rtf norm vn tr = shown buf) /\
  show_image image wait rtf norm false tr = shown buf /\
  ((exists v, In v (data buf) /\ (v < 0)%Q) ->
   forall enc, visualize_grayscale_negative_values buf = Ok enc ->
   show_image image wait rtf norm true tr
   = (tr1 ++ [EvLogDebug; EvImshow (amap (fun v => v / 255)%Q enc);
              EvWaitKey (wait_ms_of wait)],
      Ok (negb (in_quit_keys (cv2_waitKey (wait_ms_of wait)))))).
Proof.
  intros P shown. subst shown.
  assert (U : forall vn, vn && has_negative buf = false ->
            show_image image wait rtf norm vn tr
            = (tr1 ++ [EvImshow (amap (fun v => v / 255)%Q buf);
                       EvWaitKey (wait_ms_of wait)],
               Ok (negb (in_quit_keys (cv2_waitKey (wait_ms_of wait)))))).
  { intros vn G. unfold show_image, bind. rewrite P, G.
    unfold ret, emit, waitKey_call, bind, emit, ret.
    now rewrite <- app_assoc. }
  split; [|split].
  - intros N vn. apply U. apply has_negative_none in N. rewrite N.
    apply andb_false_r.
  - apply U. reflexivity.
  - intros N enc V. apply has_negative_iff in N.
    unfold show_image, bind. rewrite P, N. simpl.
    unfold lift. rewrite V.
    unfold ret, emit, waitKey_call, bind, emit, ret.
    now rewrite <- !app_assoc.
Qed.

Lemma show_image_encodes_only_negatives_witness :
  show_image (H := cv2_pressing NO_KEY) (image2 1 2 [2%Q; 3%Q])
             (WaitBool false) false false true []
  = ([EvImshow (image2 1 2 [(2 / 255)%Q; (3 / 255)%Q]); EvWaitKey 1], Ok true).
Proof.
  refine (proj1 (show_image_encodes_only_negatives (cv2_pressing NO_KEY)
            (image2 1 2 [2%Q; 3%Q]) (WaitBool false) false false []
            [] (image2 1 2 [2%Q; 3%Q]) eq_refl) _ true).
  intros v [E|[E|[]]]; subst v; discriminate.
Defined.

(** ** Cell geometry *)

Lemma py_round_near (x : Q) :
  (Qabs (inject_Z (py_round x) - x) <= 1 # 2)%Q.
Proof.
  unfold py_round.
  pose proof (Qfloor_le x) as L. pose proof (Qlt_floor x) as U.
  rewrite inject_Z_plus in U. change (inject_Z 1) with 1%Q in U.
  set (f := Qfloor x) in *.
  assert (P : (inject_Z (f + 1) == inject_Z f + 1)%Q)
    by (rewrite inject_Z_plus; reflexivity).
  apply Qabs_Qle_condition.
  destruct (x - inject_Z f ?= 1 # 2)%Q eqn:C.
  - apply Qeq_alt in C. destruct (Z.even f).
    + split; lra.
    + rewrite P. split; lra.
  - apply Qlt_alt in C. split; lra.
  - apply Qgt_alt in C. rewrite P. split; lra.
Qed.

(** Half way between two integers [py_round] takes the even one. *)
Lemma py_round_tie_even (x : Q) :
  (Qabs (inject_Z (py_round x) - x) == 1 # 2)%Q -> Z.even (py_round x) = true.
Proof.
  unfold py_round.
  pose proof (Qfloor_le x) as L. pose proof (Qlt_floor x) as U.
  rewrite inject_Z_plus in U. change (inject_Z 1) with 1%Q in U.
  set (f := Qfloor x) in *.
  assert (P : (inject_Z (f + 1) == inject_Z f + 1)%Q)
    by (rewrite inject_Z_plus; reflexivity).
  destruct (x - inject_Z f ?= 1 # 2)%Q eqn:C.
  - intros _. destruct (Z.even f) eqn:E; [exact E|].
    rewrite Z.even_add, E. reflexivity.
  - apply Qlt_alt in C. intros A. exfalso.
    rewrite Qabs_neg in A by lra. lra.
  - apply Qgt_alt in C. intros A. exfalso.
    rewrite P in A. rewrite Qabs_pos in A by lra. lra.
Qed.

Lemma py_round_float_inv (x : f64) (n : Z) :
  py_round_float x = Ok n -> n = py_round (f64_value x).
Proof.
  unfold py_round_float.
  destruct x; intros E; try discriminate; now inversion E.
Qed.

(** The float quotient of Python integers on some operands: 497/26 and
    1/3 are rounded to 53 bits, operands beyond 53 bits are divided before
    the rounding, a zero divisor and a quotient out of range raise. *)
Lemma py_truediv_examples :
  (exists q, py_truediv 497 26 = Ok q /\
             f64_value q = (5380502439430617 # 281474976710656)%Q) /\
  (exists q, py_truediv 1 3 = Ok q /\
             f64_value q = (6004799503160661 # 18014398509481984)%Q) /\
  (exists q, py_truediv (-100) 10 = Ok q /\ f64_value q = (-10 # 1)%Q) /\
  (exists q, py_truediv (2 ^ 200 + 1) (2 ^ 100 - 1) = Ok q /\
             f64_value q = inject_Z (2 ^ 100)) /\
  py_truediv 1 0 = Err ZeroDivisionError /\
  py_truediv (10 ^ 400) 1 = Err OverflowError.
Proof.
  repeat split; try (eexists; split; vm_compute; reflexivity);
    vm_compute; reflexivity.
Qed.

(** A finite binary64 number has the sign of its sign bit, and a rounded
    result never has the other sign. *)
Lemma f64_value_finite_sign (s : bool) (m : positive) (e : Z) :
  if s then (f64_value (S754_finite s m e) < 0)%Q
  else (0 < f64_value (S754_finite s m e))%Q.
Proof.
  unfold f64_value. destruct s; rewrite Qred_correct;
    destruct (Z.leb_spec 0 e) as [P|P].
  - change 0%Q with (inject_Z 0). rewrite <- Zlt_Qlt.
    pose proof (Z.pow_pos_nonneg 2 e ltac:(lia) P). nia.
  - reflexivity.
  - change 0%Q with (inject_Z 0). rewrite <- Zlt_Qlt.
    pose proof (Z.pow_pos_nonneg 2 e ltac:(lia) P). nia.
  - reflexivity.
Qed.

Lemma binary_round_aux_sign (sx : bool) (mx ex : Z) lx :
  let r := binary_round_aux f64_prec f64_emax sx mx ex lx in
  (sx = false -> (0 <= f64_value r)%Q) /\ (sx = true -> (f64_value r <= 0)%Q).
Proof.
  unfold binary_round_aux.
  destruct (shr_fexp _ _ _ _ _) as [m1 e1].
  destruct (shr_fexp _ _ _ _ _) as [m2 e2].
  destruct (shr_m m2) as [|q|q]; try (split; intros _; apply Qle_refl).
  destruct (e2 <=? f64_emax - f64_prec);
    [|split; intros _; apply Qle_refl].
  pose proof (f64_value_finite_sign sx q e2) as S.
  split; intros E; subst sx; apply Qlt_le_weak; exact S.
Qed.

(** The quotient of two Python integers by a positive divisor has the
    sign of the dividend, or is zero. *)
Lemma py_truediv_sign (a b : Z) (q : f64) :
  py_truediv a b = Ok q -> 0 < b ->
  (0 <= a -> (0 <= f64_value q)%Q) /\ (a <= 0 -> (f64_value q <= 0)%Q).
Proof.
  unfold py_truediv. intros D Pb.
  destruct b as [|pb|pb]; try lia. cbn [Z.eqb f64_exact] in D.
  destruct a as [|pa|pa]; cbn [f64_exact f64_div SFdiv] in D.
  - inversion D; subst q. split; intros _; apply Qle_refl.
  - unfold f64_div, SFdiv in D.
    destruct (SFdiv_core_binary _ _ _ _ _ _) as [[mz ez] lz].
    pose proof (binary_round_aux_sign (xorb false false) mz ez lz) as (S & _).
    destruct (binary_round_aux _ _ _ _ _ _) as [z|z| |z m e] eqn:R;
      try discriminate; inversion D; subst q;
      (split; [intros _; now apply S | lia]).
  - unfold f64_div, SFdiv in D.
    destruct (SFdiv_core_binary _ _ _ _ _ _) as [[mz ez] lz].
    pose proof (binary_round_aux_sign (xorb true false) mz ez lz) as (_ & S).
    destruct (binary_round_aux _ _ _ _ _ _) as [z|z| |z m e] eqn:R;
      try discriminate; inversion D; subst q;
      (split; [lia | intros _; now apply S]).
Qed.

(** What a computed geometry holds, for any layout function. *)
Lemma grid_geometry_with_inv layout images padding rtf g :
  grid_geometry_with layout images padding rtf = Ok g ->
  layout (n_images g) = Ok (n_rows g, n_cols g) /\
  shape images = [Z.to_nat (n_images g); img_height g; img_width g] /\
  total_row_padding g = (n_rows g + 1) * padding /\
  total_col_padding g = (n_cols g + 1) * padding /\
  (exists hs,
     py_truediv (DESIRED_HEIGHT - (n_rows g + 1) * padding)
                (n_rows g * Z.of_nat (img_height g)) = Ok hs /\
     height_scaling g = f64_value hs /\
     (rtf = true ->
      exists sh sw,
        py_mul_int hs (Z.of_nat (img_height g)) = Ok sh /\
        py_round_float sh = Ok (new_height g) /\
        py_mul_int hs (Z.of_nat (img_width g)) = Ok sw /\
        py_round_float sw = Ok (new_width g))) /\
  width_scaling g = height_scaling g /\
  (rtf = false ->
     new_height g = Z.of_nat (img_height g) /\
     new_width g = Z.of_nat (img_width g)).
Proof.
  unfold grid_geometry_with. intros G.
  destruct (shape images) as [|n hw] eqn:E; [discriminate|].
  destruct (layout (Z.of_nat n)) as [[rows cols]|] eqn:B; [|discriminate].
  cbn [rbind] in G. destruct hw as [|h [|w [|c s]]]; try discriminate.
  destruct (py_truediv _ _) as [hs|] eqn:D; [|discriminate].
  cbn [rbind] in G. destruct rtf.
  - destruct (py_mul_int hs (Z.of_nat h)) as [sh|] eqn:Mh; [|discriminate].
    cbn [rbind] in G.
    destruct (py_round_float sh) as [nh|] eqn:Rh; [|discriminate].
    cbn [rbind] in G.
    destruct (py_mul_int hs (Z.of_nat w)) as [sw|] eqn:Mw; [|discriminate].
    cbn [rbind] in G.
    destruct (py_round_float sw) as [nw|] eqn:Rw; [|discriminate].
    cbn [rbind] in G. inversion G; subst g; clear G. cbn.
    rewrite Nat2Z.id. repeat split; try assumption; try discriminate.
    exists hs. repeat split; try assumption. intros _. exists sh, sw. auto.
  - cbn [rbind] in G. inversion G; subst g; clear G. cbn.
    rewrite Nat2Z.id. repeat split; try assumption; try discriminate.
    exists hs. repeat split; try assumption. discriminate.
Qed.

Lemma grid_geometry_inv images padding rtf g :
  grid_geometry images padding rtf = Ok g ->
  best_grid (n_images g) = Ok (n_rows g, n_cols g) /\
  shape images = [Z.to_nat (n_images g); img_height g; img_width g] /\
  total_row_padding g = (n_rows g + 1) * padding /\
  total_col_padding g = (n_cols g + 1) * padding /\
  n_rows g * Z.of_nat (img_height g) <> 0 /\
  width_scaling g = height_scaling g /\
  (rtf = false ->
     new_height g = Z.of_nat (img_height g) /\
     new_width g = Z.of_nat (img_width g)).
Proof.
  intros G. apply grid_geometry_with_inv in G.
  destruct G as (B & S & Rp & Cp & (hs & D & _) & Ws & F).
  repeat split; try assumption; try (now apply F).
  intros Z0. unfold py_truediv in D. rewrite Z0 in D. discriminate.
Qed.

Lemma best_grid_positive N rows cols :
  best_grid N = Ok (rows, cols) -> 1 <= N /\ 1 <= rows /\ 1 <= cols.
Proof.
  unfold best_grid. destruct (Z.leb_spec N 0); [discriminate|].
  intros E. inversion E; subst; clear E.
  assert (Hs : 0 < Z.sqrt N) by (apply Z.sqrt_pos; lia).
  pose proof (np_ceil_div_spec N (Z.sqrt N) Hs). split; [lia|]. split; nia.
Qed.

(** C8: when the geometry is computed, whatever the layout function,
    [height_scaling] is the float
    [(DESIRED_HEIGHT - (rows+1)*padding) / (rows * img_height)], the
    binary64 number nearest to that quotient of integers, and
    [width_scaling] is the same number; over a positive divisor it has
    the sign of [DESIRED_HEIGHT - (rows+1)*padding] or is zero.  With
    [resize_to_fit] the cell is
    [round(height_scaling * img_height)] by [round(width_scaling *
    img_width)], where each product is a binary64 product and [round]
    gives the integer nearest to it, the even one half way between two; a
    square image gets a square cell, and the resize primitive is called
    with [fx = fy = height_scaling].  Without [resize_to_fit] the cell has
    the source size and the [resize] function returns its argument without
    any external call. *)
Theorem grid_geometry_spec (cv : Cv2) layout images padding rtf g :
  grid_geometry_with layout images padding rtf = Ok g ->
  let h := Z.of_nat (img_height g) in
  let w := Z.of_nat (img_width g) in
  layout (n_images g) = Ok (n_rows g, n_cols g) /\
  shape images = [Z.to_nat (n_images g); img_height g; img_width g] /\
  (exists height_scale : f64,
     py_truediv (DESIRED_HEIGHT - (n_rows g + 1) * padding) (n_rows g * h)
     = Ok height_scale /\
     height_scaling g = f64_value height_scale /\
     width_scaling g = height_scaling g /\
     (0 < n_rows g * h ->
      (0 <= DESIRED_HEIGHT - (n_rows g + 1) * padding ->
       (0 <= height_scaling g)%Q) /\
      (DESIRED_HEIGHT - (n_rows g + 1) * padding <= 0 ->
       (height_scaling g <= 0)%Q)) /\
     (rtf = true ->
      exists scaled_height scaled_width : f64,
        py_mul_int height_scale h = Ok scaled_height /\
        py_mul_int height_scale w = Ok scaled_width /\
        new_height g = py_round (f64_value scaled_height) /\
        new_width g = py_round (f64_value scaled_width) /\
        (2 * Qabs (inject_Z (new_height g) - f64_value scaled_height) <= 1)%Q /\
        (2 * Qabs (inject_Z (new_width g) - f64_value scaled_width) <= 1)%Q /\
        ((2 * Qabs (inject_Z (new_height g) - f64_value scaled_height) == 1)%Q ->
         Z.even (new_height g) = true) /\
        ((2 * Qabs (inject_Z (new_width g) - f64_value scaled_width) == 1)%Q ->
         Z.even (new_width g) = true))) /\
  (rtf = true ->
     (h = w -> new_height g = new_width g) /\
     forall img tr,
       resize true g img tr
       = (tr ++ [EvResize (height_scaling g) (height_scaling g) img],
          cv2_resize (height_scaling g) (height_scaling g) img)) /\
  (rtf = false ->
     new_height g = h /\
     new_width g = w /\
     forall img tr, resize false g img tr = (tr, Ok img)).
Proof.
  intros G h w.
  destruct (grid_geometry_with_inv _ _ _ _ _ G)
    as (B & S & _ & _ & (hs & D & Hs & T) & Ws & F).
  fold h w in D, T, F.
  split; [exact B|]. split; [exact S|]. split; [|split].
  - exists hs. split; [exact D|]. split; [exact Hs|]. split; [exact Ws|].
    split; [intros P; rewrite Hs; exact (py_truediv_sign _ _ _ D P)|].
    intros R. destruct (T R) as (sh & sw & Mh & Rh & Mw & Rw).
    apply py_round_float_inv in Rh, Rw.
    exists sh, sw. split; [exact Mh|]. split; [exact Mw|].
    split; [exact Rh|]. split; [exact Rw|].
    rewrite Rh, Rw.
    pose proof (py_round_near (f64_value sh)) as Nh.
    pose proof (py_round_near (f64_value sw)) as Nw.
    split; [lra|]. split; [lra|]. split.
    + intros A. apply py_round_tie_even. lra.
    + intros A. apply py_round_tie_even. lra.
  - intros R. destruct (T R) as (sh & sw & Mh & Rh & Mw & Rw). split.
    + intros E. rewrite <- E in Mw. rewrite Mh in Mw.
      inversion Mw; subst sw. rewrite Rh in Rw. now inversion Rw.
    + intros img tr. unfold resize, resize_call, bind, emit, lift.
      now rewrite Ws.
  - intros R. destruct (F R) as (Fh & Fw). split; [exact Fh|].
    split; [exact Fw|]. reflexivity.
Qed.

(** The default call on four 13x13 images: the scale 497/26 and its
    product with 13 are rounded, the product is above 248.5 and the cell
    is 249 samples high, where the exact product 248.5 would round to
    248. *)
Lemma grid_geometry_spec_witness :
  exists g,
    grid_geometry_with best_grid_f64 (mkArr Float32 [4; 13; 13]%nat []) 1 true
    = Ok g /\
    (n_rows g, n_cols g) = (2, 2) /\
    height_scaling g = (5380502439430617 # 281474976710656)%Q /\
    width_scaling g = height_scaling g /\
    (new_height g, new_width g) = (249, 249) /\
    py_round ((497 # 26) * 13) = 248.
Proof.
  eexists. split; [vm_compute; reflexivity|].
  pose proof (grid_geometry_spec (cv2_pressing NO_KEY) best_grid_f64
                (mkArr Float32 [4; 13; 13]%nat []) 1 true _
                ltac:(vm_compute; reflexivity))
    as (_ & _ & (hs & _ & _ & Ws & _) & _).
  split; [reflexivity|]. split; [reflexivity|].
  split; [exact Ws|]. split; reflexivity.
Defined.

(** ** Normalisation *)

Lemma fold_max_ge (l : list Q) (x : Q) : (x <= fold_left Qmax l x)%Q.
Proof.
  revert x. induction l as [|a l IH]; intros x; simpl.
  - apply Qle_refl.
  - eapply Qle_trans; [apply Q.le_max_l | apply IH].
Qed.

Lemma fold_max_upper (l : list Q) (x v : Q) :
  In v l -> (v <= fold_left Qmax l x)%Q.
Proof.
  revert x. induction l as [|a l IH]; intros x I; simpl; [contradiction|].
  destruct I as [E|I].
  - subst a. eapply Qle_trans; [apply Q.le_max_r | apply fold_max_ge].
  - now apply IH.
Qed.

Lemma fold_max_attained (l : list Q) (x : Q) :
  exists v, In v (x :: l) /\ (v == fold_left Qmax l x)%Q.
Proof.
  revert x. induction l as [|a l IH]; intros x; simpl.
  - exists x. split; [now left | reflexivity].
  - destruct (IH (Qmax x a)) as (v & [E|I] & Q).
    + subst v. destruct (Q.max_dec x a) as [M|M].
      * exists x. split; [now left|]. now rewrite <- Q, M.
      * exists a. split; [right; now left|]. now rewrite <- Q, M.
    + exists v. split; [right; now right | exact Q].
Qed.

(** What [np.max] returns: an upper bound of the samples that is one of
    them. *)
Lemma np_max_char (a : ndarray) (m : Q) :
  np_max a = Ok m ->
  (forall v, In v (data a) -> (v <= m)%Q) /\
  (exists v, In v (data a) /\ (v == m)%Q).
Proof.
  unfold np_max. destruct (data a) as [|x l]; [discriminate|].
  intros E. inversion E; subst m; clear E. split.
  - intros v [E|I]; [subst v; apply fold_max_ge | now apply fold_max_upper].
  - apply fold_max_attained.
Qed.

Lemma np_max_abs_char (a : ndarray) (m : Q) :
  np_max (np_abs a) = Ok m ->
  (forall v, In v (data a) -> (Qabs v <= m)%Q) /\
  (exists v, In v (data a) /\ (Qabs v == m)%Q).
Proof.
  intros E. apply np_max_char in E. destruct E as (U & v' & I & A).
  simpl in *. split.
  - intros v Iv. apply U. now apply in_map.
  - apply in_map_iff in I. destruct I as (v & Ev & Iv).
    exists v. split; [exact Iv | now rewrite Ev].
Qed.

Lemma np_max_nonempty (a : ndarray) :
  data a <> [] -> exists m, np_max a = Ok m.
Proof.
  unfold np_max. destruct (data a); [congruence | eauto].
Qed.

Lemma eps_pos : (0 < eps)%Q.
Proof. reflexivity. Qed.

Lemma scale_by_max_ok (m : Q) (image : ndarray) :
  ~ (m + eps == 0)%Q ->
  scale_by_max m image = Ok (amap (fun v => v / (m + eps) * 255)%Q image).
Proof.
  intros N. unfold scale_by_max.
  destruct (Qeq_bool (m + eps) 0) eqn:E; [|reflexivity].
  apply Qeq_bool_iff in E. contradiction.
Qed.

Lemma scaled_abs (m v : Q) :
  (0 <= m)%Q ->
  (Qabs (v / (m + eps) * 255) == Qabs v * (255 / (m + eps)))%Q.
Proof.
  intros P. pose proof eps_pos as EP.
  assert (D : (0 < m + eps)%Q) by lra.
  assert (K : (0 <= 255 / (m + eps))%Q).
  { apply Qle_shift_div_l; [exact D | lra]. }
  setoid_replace (v / (m + eps) * 255)%Q with (v * (255 / (m + eps)))%Q
    by (field; lra).
  rewrite Qabs_Qmult, (Qabs_pos _ K). reflexivity.
Qed.

(** The largest magnitude after the division by [m + eps], when [m] is the
    largest magnitude before. *)
Lemma scaled_max_abs (image : ndarray) (m : Q) :
  (0 <= m)%Q ->
  (forall v, In v (data image) -> (Qabs v <= m)%Q) ->
  (exists v, In v (data image) /\ (Qabs v == m)%Q) ->
  exists out m',
    scale_by_max m image = Ok out /\
    np_max (np_abs out) = Ok m' /\
    (m' == 255 * m / (m + eps))%Q.
Proof.
  intros P U (v0 & I0 & A0). pose proof eps_pos as EP.
  assert (D : (0 < m + eps)%Q) by lra.
  assert (K : (0 <= 255 / (m + eps))%Q).
  { apply Qle_shift_div_l; [exact D | lra]. }
  rewrite scale_by_max_ok by lra.
  eexists. 
  destruct (np_max_nonempty
              (np_abs (amap (fun v => v / (m + eps) * 255)%Q image)))
    as (m' & M).
  { simpl. destruct (data image); [contradiction | discriminate]. }
  exists m'. split; [reflexivity|]. split; [exact M|].
  apply np_max_abs_char in M. destruct M as (U' & v1 & I1 & A1). simpl in *.
  apply Qle_antisym.
  - apply in_map_iff in I1. destruct I1 as (w & Ew & Iw).
    rewrite <- A1, <- Ew, scaled_abs by exact P.
    setoid_replace (255 * m / (m + eps))%Q with (m * (255 / (m + eps)))%Q
      by (field; lra).
    apply Qmult_le_compat_r; [now apply U | exact K].
  - setoid_replace (255 * m / (m + eps))%Q with (Qabs v0 * (255 / (m + eps)))%Q
      by (rewrite A0; field; lra).
    rewrite <- scaled_abs by exact P. apply U'.
    apply in_map_iff. exists v0. split; [reflexivity | exact I0].
Qed.

Lemma np_max_abs_nonneg (a : ndarray) (m : Q) :
  np_max (np_abs a) = Ok m -> (0 <= m)%Q.
Proof.
  intros E. apply np_max_abs_char in E. destruct E as (_ & v & _ & A).
  rewrite <- A. apply Qabs_nonneg.
Qed.



(** C7, as stated, fails: the image [[1e-15]] is not all-zero, and the
    normalisation of the mosaic path maps it to [[127.5]], which is not
    within any floating tolerance of 255 (here: not even within 1). *)
Lemma normalization_tiny_image_far_from_255 :
  let image := image2 1 1 [eps] in
  (exists v, In v (data image) /\ ~ (v == 0)%Q) /\
  exists m out m',
    np_max (np_abs image) = Ok m /\
    scale_by_max m image = Ok out /\
    np_max (np_abs out) = Ok m' /\
    (m' == 255 # 2)%Q /\ ~ (Qabs (m' - 255) <= 1)%Q.
Proof.
  split.
  - exists eps. split; [now left | discriminate].
  - do 3 eexists. split; [reflexivity|]. split; [reflexivity|].
    split; [reflexivity|]. split; [reflexivity|].
    intros C. vm_compute in C. apply C. reflexivity.
Qed.

(** The largest magnitude after the normalisation is at most 255 and
    misses 255 by at most [255 * (1e-15/m + 1e-6)]; the second term leaves
    room for the rounding of the three float operations. *)
Lemma sub_scaled_bound (m : Q) :
  (0 < m)%Q ->
  (255 * m / (m + eps) <= 255)%Q /\
  (255 - 255 * m / (m + eps) <= 255 * (eps / m + (1 # 1000000)))%Q.
Proof.
  intros P. pose proof eps_pos as EP.
  assert (D : (0 < m + eps)%Q) by lra.
  split.
  - apply Qle_shift_div_r; [exact D | lra].
  - apply Qle_trans with (255 * eps / m)%Q.
    + setoid_replace (255 - 255 * m / (m + eps))%Q
        with (255 * eps / (m + eps))%Q by (field; lra).
      apply Qle_shift_div_r; [exact D|].
      setoid_replace (255 * eps / m * (m + eps))%Q
        with (255 * eps + 255 * eps * (eps / m))%Q by (field; lra).
      assert (0 <= eps / m)%Q by (apply Qle_shift_div_l; lra).
      assert (0 <= 255 * eps * (eps / m))%Q
        by (apply Qmult_le_0_compat; [lra | assumption]).
      lra.
    + setoid_replace (255 * eps / m)%Q with (255 * (eps / m))%Q
        by (field; lra).
      lra.
Qed.

(** C7 (amended): on an all-zero image with at least one sample both
    normalisations return an all-zero image.  On an image whose largest
    magnitude [m] is positive, the mosaic normalisation returns an image
    whose largest magnitude is at most 255 and at least
    [255 * (1 - 1e-15/m - 1e-6)]: it is near 255 when [m] is large against
    1e-15, and only then.  The normalisation of [show_image] does the same
    when the raw maximum is positive and no sample is below its
    negation. *)
Theorem normalization_bounds (image : ndarray) :
  data image <> [] ->
  ((forall v, In v (data image) -> (v == 0)%Q) ->
   exists m_abs out_abs m_raw out_raw,
     np_max (np_abs image) = Ok m_abs /\
     scale_by_max m_abs image = Ok out_abs /\
     (forall v, In v (data out_abs) -> (v == 0)%Q) /\
     np_max image = Ok m_raw /\
     scale_by_max m_raw image = Ok out_raw /\
     (forall v, In v (data out_raw) -> (v == 0)%Q)) /\
  ((exists v, In v (data image) /\ ~ (v == 0)%Q) ->
   exists m out m',
     np_max (np_abs image) = Ok m /\ (0 < m)%Q /\
     scale_by_max m image = Ok out /\
     np_max (np_abs out) = Ok m' /\
     (m' <= 255)%Q /\
     (255 - m' <= 255 * (eps / m + (1 # 1000000)))%Q) /\
  (forall m, np_max image = Ok m -> (0 < m)%Q ->
   (forall v, In v (data image) -> (- m <= v)%Q) ->
   exists out m',
     scale_by_max m image = Ok out /\
     np_max (np_abs out) = Ok m' /\
     (m' <= 255)%Q /\
     (255 - m' <= 255 * (eps / m + (1 # 1000000)))%Q).
Proof.
  intros NE. pose proof eps_pos as EP.
  assert (Z0 : forall m out, (m == 0)%Q ->
            (forall v, In v (data image) -> (v == 0)%Q) ->
            scale_by_max m image = Ok out ->
            forall v, In v (data out) -> (v == 0)%Q).
  { intros m out Em Zs S v I. rewrite scale_by_max_ok in S by lra.
    inversion S; subst out; clear S. simpl in I.
    apply in_map_iff in I. destruct I as (w & Ew & Iw). subst v.
    rewrite (Zs w Iw). unfold Qdiv. ring. }
  split; [|split].
  - intros Zs.
    destruct (np_max_nonempty (np_abs image)) as (ma & Ma).
    { simpl. destruct (data image); [congruence | discriminate]. }
    destruct (np_max_nonempty image NE) as (mr & Mr).
    assert (Ea : (ma == 0)%Q).
    { apply np_max_abs_char in Ma. destruct Ma as (_ & v & I & A).
      rewrite <- A, (Zs v I). reflexivity. }
    assert (Er : (mr == 0)%Q).
    { apply np_max_char in Mr. destruct Mr as (_ & v & I & A).
      rewrite <- A. now apply Zs. }
    exists ma, (amap (fun v => v / (ma + eps) * 255)%Q image),
           mr, (amap (fun v => v / (mr + eps) * 255)%Q image).
    assert (Sa := scale_by_max_ok ma image ltac:(lra)).
    assert (Sr := scale_by_max_ok mr image ltac:(lra)).
    repeat split; eauto.
  - intros (v & I & N).
    destruct (np_max_nonempty (np_abs image)) as (m & M).
    { simpl. destruct (data image); [congruence | discriminate]. }
    pose proof (np_max_abs_char _ _ M) as (U & A).
    assert (P : (0 < m)%Q).
    { apply Qlt_le_trans with (Qabs v); [|now apply U].
      destruct (Qlt_le_dec 0 (Qabs v)) as [G|G]; [exact G|].
      exfalso. apply N.
      pose proof (Qabs_nonneg v) as G0.
      assert (Z : (Qabs v == 0)%Q) by lra.
      pose proof (Qle_Qabs v) as G1.
      pose proof (Qle_Qabs (- v)) as G2. rewrite Qabs_opp in G2. lra. }
    destruct (scaled_max_abs image m ltac:(lra) U A) as (out & m' & S & M' & E).
    exists m, out, m'. repeat split; try assumption.
    + rewrite E. now apply sub_scaled_bound.
    + rewrite E. now apply sub_scaled_bound.
  - intros m M P Lo. pose proof (np_max_char _ _ M) as (U & v & I & A).
    destruct (scaled_max_abs image m ltac:(lra)) as (out & m' & S & M' & E).
    + intros w Iw. apply Qabs_Qle_condition. split; [now apply Lo | now apply U].
    + exists v. split; [exact I|]. rewrite A. apply Qabs_pos. lra.
    + exists out, m'. repeat split; try assumption.
      * rewrite E. now apply sub_scaled_bound.
      * rewrite E. now apply sub_scaled_bound.
Qed.

Lemma normalization_bounds_witness :
  exists m out m',
    np_max (np_abs (image2 1 2 [(-3)%Q; 1%Q])) = Ok m /\ (0 < m)%Q /\
    scale_by_max m (image2 1 2 [(-3)%Q; 1%Q]) = Ok out /\
    np_max (np_abs out) = Ok m' /\
    (m' <= 255)%Q /\
    (255 - m' <= 255 * (eps / m + (1 # 1000000)))%Q.
Proof.
  apply (normalization_bounds (image2 1 2 [(-3)%Q; 1%Q])).
  - discriminate.
  - exists 1%Q. split; [right; now left | discriminate].
Defined.

(** ** The trace only grows *)

Lemma extends_ret {A} (a : A) : extends (ret a).
Proof. intros tr. exists []. simpl. now rewrite app_nil_r. Qed.

Lemma extends_lift {A} (r : result A) : extends (lift r).
Proof. intros tr. exists []. simpl. now rewrite app_nil_r. Qed.

Lemma extends_emit (e : event) : extends (emit e).
Proof. intros tr. now exists [e]. Qed.

Lemma extends_bind {A B} (m : M A) (k : A -> M B) :
  extends m -> (forall a, extends (k a)) -> extends (bind m k).
Proof.
  intros Hm Hk tr. unfold bind. destruct (Hm tr) as (r1 & E1).
  destruct (m tr) as [tr1 [a|e]]; simpl in E1; subst tr1.
  - destruct (Hk a (tr ++ r1)) as (r2 & E2). exists (r1 ++ r2).
    now rewrite E2, app_assoc.
  - now exists r1.
Qed.

Lemma extends_foldM {S A} (f : S -> A -> M S) (l : list A) :
  (forall s a, extends (f s a)) -> forall s, extends (foldM f l s).
Proof.
  intros Hf. induction l as [|a l IH]; intros s; simpl.
  - apply extends_ret.
  - apply extends_bind; [apply Hf | exact IH].
Qed.

Create HintDb trace.
#[local] Hint Resolve extends_ret extends_lift extends_emit : trace.

Lemma extends_resize_call `{Cv2} fx fy img : extends (resize_call fx fy img).
Proof. apply extends_bind; auto with trace. Qed.

Lemma extends_place_cell `{Cv2} images g padding rtf norm grid rc :
  extends (place_cell images g padding rtf norm grid rc).
Proof.
  unfold place_cell. destruct rc as [row col].
  destruct (row * n_cols g + col >=? n_images g); [auto with trace|].
  apply extends_bind.
  - unfold resize. destruct rtf; [apply extends_resize_call | auto with trace].
  - intros img. apply extends_bind; [|auto with trace].
    destruct norm; [|auto with trace].
    apply extends_bind; auto with trace.
Qed.

Lemma range_head (n : Z) : 1 <= n -> exists rest, range n = 0 :: rest.
Proof.
  intros P. unfold range.
  destruct (Z.to_nat n) as [|k] eqn:E; [lia|]. simpl. eauto.
Qed.

Lemma cells_head (g : geometry) :
  1 <= n_rows g -> 1 <= n_cols g -> exists rest, cells g = (0, 0) :: rest.
Proof.
  intros R C. unfold cells.
  destruct (range_head _ R) as (rr & Er). destruct (range_head _ C) as (rc & Ec).
  rewrite Er. simpl. rewrite Ec. simpl. eauto.
Qed.

Lemma emits_first_emit {A} (e : event) (k : unit -> M A) :
  (forall u, extends (k u)) -> emits_first e (bind (emit e) k).
Proof.
  intros Hk tr. unfold bind, emit. destruct (Hk tt (tr ++ [e])) as (r & E).
  exists r. rewrite E, <- app_assoc. reflexivity.
Qed.

Lemma emits_first_bind {A B} (e : event) (m : M A) (k : A -> M B) :
  emits_first e m -> (forall a, extends (k a)) -> emits_first e (bind m k).
Proof.
  intros Hm Hk tr. unfold bind. destruct (Hm tr) as (r1 & E1).
  destruct (m tr) as [tr1 [a|err]]; simpl in E1; subst tr1.
  - destruct (Hk a (tr ++ e :: r1)) as (r2 & E2). exists (r1 ++ r2).
    rewrite E2, <- app_assoc. reflexivity.
  - now exists r1.
Qed.

Lemma extends_prepare_image `{Cv2} image rtf norm :
  extends (prepare_image image rtf norm).
Proof.
  unfold prepare_image, py_assert. apply extends_bind.
  - destruct (is_floating (dt image)); auto with trace.
  - intros _. apply extends_bind.
    + destruct norm; [apply extends_bind|]; auto with trace.
    + intros img. destruct rtf; [|auto with trace].
      apply extends_bind; [auto with trace|]. intros h.
      apply extends_bind; [auto with trace|]. intros hs.
      apply extends_resize_call.
Qed.

Lemma extends_show_image `{Cv2} image wait rtf norm vn :
  extends (show_image image wait rtf norm vn).
Proof.
  unfold show_image. apply extends_bind; [apply extends_prepare_image|].
  intros img. apply extends_bind.
  - destruct (vn && has_negative img); [apply extends_bind|]; auto with trace.
  - intros img'. apply extends_bind; [auto with trace|]. intros _.
    apply extends_bind; [|auto with trace].
    unfold waitKey_call. apply extends_bind; auto with trace.
Qed.

(** ** No check of the scale before the resize *)

(** C3, as stated, fails: with one 10x10 image and padding 300 the scale is
    (500 - 600) / 10 = -10, and the run calls the resize primitive with
    that scale; the only error is the one the primitive raises. *)
Lemma nonpositive_scale_is_passed_to_resize :
  let images := const_batch4 1 10 10 1 in
  exists g tr,
    grid_geometry (mkArr Float32 [1; 10; 10]%nat (data images)) 300 true = Ok g /\
    (height_scaling g == -10)%Q /\
    show_images_grid (H := cv2_pressing NO_KEY) images (WaitBool true) 300
                     true false true []
    = (tr, Err Cv2Error) /\
    tr = [EvResize (height_scaling g) (height_scaling g)
                   (take_image images 0 10 10)] /\
    existsb is_resize tr = true.
Proof.
  do 2 eexists. split; [reflexivity|]. split; [reflexivity|].
  split; [vm_compute; reflexivity|]. split; reflexivity.
Qed.

(** C3 (amended): [show_images_grid] has no check of the sign of the scale.
    When the scale is not positive and the shape of the grid image computed
    from the rounded cell size has no negative entry, the first external
    call is the resize of the first image with [fx = fy = height_scaling];
    when that shape has a negative entry, the allocation raises ValueError
    and no external call is made. *)
Theorem nonpositive_scale_reaches_resize (cv : Cv2) images imgs wait padding
    norm vn g tr :
  ndim images = 4%nat ->
  squeeze_last images = Ok imgs ->
  grid_geometry imgs padding true = Ok g ->
  (height_scaling g <= 0)%Q ->
  let H := n_rows g * new_height g + total_row_padding g in
  let W := n_cols g * new_width g + total_col_padding g in
  ((H < 0 \/ W < 0) ->
   show_images_grid images wait padding true norm vn tr = (tr, Err ValueError)) /\
  (0 <= H -> 0 <= W ->
   exists rest r,
     show_images_grid images wait padding true norm vn tr
     = (tr ++ EvResize (height_scaling g) (height_scaling g)
                       (take_image imgs 0 (img_height g) (img_width g)) :: rest,
        r)).
Proof.
  intros D S G _ H W.
  assert (A : forall tr, assert_ndim images tr = (tr, Ok tt)).
  { intros t. unfold assert_ndim. rewrite D. reflexivity. }
  split.
  - intros N. unfold show_images_grid, assemble_grid, bind.
    rewrite A. unfold lift. rewrite S, G. fold H W.
    unfold np_full2.
    assert (E : (H <? 0) || (W <? 0) = true).
    { apply orb_true_iff. rewrite !Z.ltb_lt. exact N. }
    rewrite E. reflexivity.
  - intros PH PW.
    destruct (grid_geometry_inv _ _ _ _ G) as (B & _ & _ & _ & _ & Ws & _).
    destruct (best_grid_positive _ _ _ B) as (PN & PR & PC).
    destruct (cells_head g PR PC) as (cs & Ec).
    assert (F : emits_first
                  (EvResize (height_scaling g) (height_scaling g)
                            (take_image imgs 0 (img_height g) (img_width g)))
                  (show_images_grid images wait padding true norm vn)).
    { unfold show_images_grid.
      apply emits_first_bind; [|intros gi; apply extends_show_image].
      intros t. unfold assemble_grid, bind at 1. rewrite A.
      unfold bind at 1, lift at 1. rewrite S.
      unfold bind at 1, lift at 1. rewrite G.
      unfold bind at 1, lift at 1. fold H W. unfold np_full2.
      assert (E : (H <? 0) || (W <? 0) = false).
      { apply orb_false_iff. rewrite !Z.ltb_ge. split; assumption. }
      rewrite E. rewrite Ec.
      apply emits_first_bind; [|intros a; apply extends_ret].
      simpl foldM.
      apply emits_first_bind;
        [|intros a; apply extends_foldM; intros; apply extends_place_cell].
      unfold place_cell.
      replace (0 * n_cols g + 0) with 0 by lia.
      destruct (Z.geb_spec 0 (n_images g)); [lia|].
      apply emits_first_bind.
      - unfold resize, resize_call. rewrite Ws. simpl Z.to_nat.
        apply emits_first_emit. intros _. apply extends_lift.
      - intros img. apply extends_bind; [|auto with trace].
        destruct norm; [apply extends_bind|]; auto with trace. }
    destruct (F tr) as (rest & E).
    destruct (show_images_grid images wait padding true norm vn tr) as [t r].
    simpl in E. subst t. eauto.
Qed.

Lemma nonpositive_scale_reaches_resize_witness :
  exists rest r,
    show_images_grid (H := cv2_pressing NO_KEY) (const_batch4 1 10 10 1)
                     (WaitBool true) 300 true false true []
    = ([] ++ EvResize (-10 # 1) (-10 # 1)
                      (take_image (mkArr Float32 [1; 10; 10]%nat
                                         (data (const_batch4 1 10 10 1)))
                                  0 10 10) :: rest, r).
Proof.
  refine (proj2 (nonpositive_scale_reaches_resize (cv2_pressing NO_KEY)
            (const_batch4 1 10 10 1)
            (mkArr Float32 [1; 10; 10]%nat (data (const_batch4 1 10 10 1)))
            (WaitBool true) 300 false true
            (mkGeom 1 1 1 10 10 600 600 (-10 # 1) (-10 # 1) (-100) (-100)) []
            eq_refl eq_refl ltac:(vm_compute; reflexivity) _) _ _).
  - discriminate.
  - simpl; lia.
  - simpl; lia.
Defined.

(** ** Assembly of the grid image *)

Lemma nth_tabulate (f : nat -> Q) (n k : nat) :
  (k < n)%nat -> nth k (map f (seq 0 n)) 0%Q = f k.
Proof.
  intros L. rewrite (nth_indep _ 0%Q (f 0%nat)) by now rewrite length_map, length_seq.
  rewrite map_nth, seq_nth by exact L. reflexivity.
Qed.

Lemma flat_index (y x W : Z) :
  0 <= y -> 0 <= x < W ->
  (y * W + x) / W = y /\ (y * W + x) mod W = x.
Proof.
  intros Py Px. split.
  - symmetry. apply Z.div_unique with x; [left; lia | lia].
  - symmetry. apply Z.mod_unique with y; [left; lia | lia].
Qed.

(** An assignment to a slice changes no sample outside the clipped slice
    and keeps the shape. *)
Lemma setitem_slice2_frame grid h0 h1 w0 w1 v grid' (H W : nat) :
  setitem_slice2 grid h0 h1 w0 w1 v = Ok grid' ->
  shape grid = [H; W] -> length (data grid) = (H * W)%nat ->
  shape grid' = [H; W] /\ length (data grid') = (H * W)%nat /\
  forall y x, 0 <= y < Z.of_nat H -> 0 <= x < Z.of_nat W ->
    ~ (slice_index (Z.of_nat H) h0 <= y < slice_index (Z.of_nat H) h1 /\
       slice_index (Z.of_nat W) w0 <= x < slice_index (Z.of_nat W) w1) ->
    get2 grid' y x = get2 grid y x.
Proof.
  unfold setitem_slice2. intros S Sh Len. rewrite Sh in S.
  destruct (broadcast_shape2 (shape v)) as [[vh vw]|]; [|discriminate].
  match type of S with (if ?c then _ else _) = _ => destruct c end;
    [|discriminate].
  inversion S; subst grid'; clear S. simpl.
  split; [reflexivity|]. split; [now rewrite length_map, length_seq|].
  intros y x By Bx Out. unfold get2. simpl. rewrite Sh. simpl.
  set (k := Z.to_nat (y * Z.of_nat W + x)).
  assert (Ek : Z.of_nat k = y * Z.of_nat W + x) by (unfold k; nia).
  assert (Lk : (k < length (data grid))%nat) by (rewrite Len; nia).
  rewrite nth_tabulate by exact Lk. rewrite Ek.
  destruct (flat_index y x (Z.of_nat W)) as (Ey & Ex); [lia | lia |].
  rewrite Ey, Ex.
  match goal with |- (if ?c then _ else _) = _ => destruct c eqn:C end;
    [|reflexivity].
  exfalso. apply Out.
  rewrite !andb_true_iff, !Z.leb_le, !Z.ltb_lt in C. lia.
Qed.

Lemma place_cell_frame (cv : Cv2) images g padding rtf norm grid rc tr tr' grid'
    (H W : nat) :
  place_cell images g padding rtf norm grid rc tr = (tr', Ok grid') ->
  shape grid = [H; W] -> length (data grid) = (H * W)%nat ->
  shape grid' = [H; W] /\ length (data grid') = (H * W)%nat /\
  forall y x, 0 <= y < Z.of_nat H -> 0 <= x < Z.of_nat W ->
    (placed g rc -> ~ written g padding (Z.of_nat H) (Z.of_nat W) rc y x) ->
    get2 grid' y x = get2 grid y x.
Proof.
  unfold place_cell. destruct rc as [row col]. intros P Sh Len.
  destruct (Z.geb_spec (row * n_cols g + col) (n_images g)) as [G|G].
  - inversion P; subst. auto.
  - unfold bind in P.
    destruct (resize rtf g _ tr) as [t1 [img|e]]; [|discriminate].
    match type of P with
    | match ?m t1 with _ => _ end = _ => destruct (m t1) as [t2 [img'|e]]
    end; [|discriminate].
    unfold lift in P. inversion P as [[Et S]]; clear P.
    destruct (setitem_slice2 _ _ _ _ _ _) as [gr|] eqn:St; [|discriminate].
    inversion S; subst gr; clear S.
    destruct (setitem_slice2_frame _ _ _ _ _ _ _ H W St Sh Len) as (S1 & S2 & F).
    split; [exact S1|]. split; [exact S2|].
    intros y x By Bx Out. apply F; try assumption.
    apply Out. exact G.
Qed.

Lemma foldM_place_frame (cv : Cv2) images g padding rtf norm (H W : nat) l :
  forall grid tr tr' grid',
  foldM (place_cell images g padding rtf norm) l grid tr = (tr', Ok grid') ->
  shape grid = [H; W] -> length (data grid) = (H * W)%nat ->
  shape grid' = [H; W] /\
  forall y x, 0 <= y < Z.of_nat H -> 0 <= x < Z.of_nat W ->
    (forall rc, In rc l -> placed g rc ->
                ~ written g padding (Z.of_nat H) (Z.of_nat W) rc y x) ->
    get2 grid' y x = get2 grid y x.
Proof.
  induction l as [|rc l IH]; intros grid tr tr' grid' F Sh Len; simpl in F.
  - inversion F; subst. auto.
  - unfold bind in F.
    destruct (place_cell images g padding rtf norm grid rc tr)
      as [t1 [g1|e]] eqn:P; [|discriminate].
    destruct (place_cell_frame cv _ _ _ _ _ _ _ _ _ _ H W P Sh Len) as (S1 & L1 & F1).
    destruct (IH _ _ _ _ F S1 L1) as (S2 & F2).
    split; [exact S2|].
    intros y x By Bx Out. rewrite F2, F1; try assumption.
    + reflexivity.
    + apply Out. now left.
    + intros rc' I. apply Out. now right.
Qed.

Lemma in_range (n z : Z) : In z (range n) -> 0 <= z < n.
Proof.
  unfold range. intros I. apply in_map_iff in I. destruct I as (k & E & I).
  apply in_seq in I. lia.
Qed.

Lemma in_cells (g : geometry) (rc : Z * Z) :
  In rc (cells g) -> 0 <= fst rc < n_rows g /\ 0 <= snd rc < n_cols g.
Proof.
  unfold cells. intros I. apply in_flat_map in I. destruct I as (row & Ir & I).
  apply in_map_iff in I. destruct I as (col & E & Ic). subst rc. simpl.
  split; now apply in_range.
Qed.

(** A clipped slice of a cell lies within the interval of the cell, along
    an axis of [k] cells of size [n] and [k + 1] paddings. *)
Lemma slice_within (p n k r y : Z) :
  0 <= p -> 0 <= r < k -> 0 <= k * n + (k + 1) * p ->
  let L := k * n + (k + 1) * p in
  let b := (r + 1) * p + r * n in
  slice_index L b <= y < slice_index L (b + n) ->
  b <= y < b + n.
Proof.
  intros Pp Pr PL L b. unfold slice_index.
  assert (E1 : L - b = (k - r) * (n + p)) by (unfold L, b; ring).
  assert (E2 : b + n = (r + 1) * (p + n)) by (unfold b; ring).
  destruct (Z.ltb_spec b 0) as [B|B]; destruct (Z.ltb_spec (b + n) 0) as [C|C];
    intros I; try lia.
  - assert (n < 0) by nia. nia.
  - assert (p + n < 0) by nia.
    assert (L - b <= 0) by nia. lia.
Qed.

Lemma interval_disjoint (p n r1 r2 y : Z) :
  0 <= p -> 0 <= r1 -> 0 <= r2 ->
  (r1 + 1) * p + r1 * n <= y < (r1 + 1) * p + r1 * n + n ->
  (r2 + 1) * p + r2 * n <= y < (r2 + 1) * p + r2 * n + n ->
  r1 = r2.
Proof.
  intros Pp P1 P2 I1 I2.
  destruct (Z.lt_trichotomy r1 r2) as [L|[E|L]]; [exfalso | exact E | exfalso].
  - assert (0 <= (r2 - r1 - 1) * (p + n)) by nia. nia.
  - assert (0 <= (r1 - r2 - 1) * (p + n)) by nia. nia.
Qed.

Lemma cells_disjoint g padding row col r c y x :
  0 <= padding -> 0 <= row -> 0 <= col -> 0 <= r -> 0 <= c ->
  in_cell g padding row col y x -> in_cell g padding r c y x ->
  row = r /\ col = c.
Proof.
  unfold in_cell, base_height, base_width. intros Pp Pr Pc Pr' Pc' (Y1 & X1) (Y2 & X2).
  split.
  - exact (interval_disjoint padding (new_height g) row r y Pp Pr Pr' Y1 Y2).
  - exact (interval_disjoint padding (new_width g) col c x Pp Pc Pc' X1 X2).
Qed.

Lemma np_full2_inv (h w : Z) (v : Q) (a : ndarray) :
  np_full2 h w v = Ok a ->
  0 <= h /\ 0 <= w /\
  shape a = [Z.to_nat h; Z.to_nat w] /\
  length (data a) = (Z.to_nat h * Z.to_nat w)%nat /\
  forall y x, 0 <= y < h -> 0 <= x < w -> get2 a y x = v.
Proof.
  unfold np_full2. destruct (Z.ltb_spec h 0); [discriminate|].
  destruct (Z.ltb_spec w 0); [discriminate|]. simpl.
  intros E. inversion E; subst a; clear E. simpl.
  split; [assumption|]. split; [assumption|]. split; [reflexivity|].
  split; [apply repeat_length|].
  intros y x By Bx. unfold get2. simpl.
  rewrite (nth_indep _ 0%Q v) by (rewrite repeat_length; nia).
  apply nth_repeat.
Qed.

(** Every sample of the assembled grid image that lies in no placement
    rectangle of a cell with an image is the background value. *)
Lemma assemble_grid_frame (cv : Cv2) images padding rtf norm tr tr' g canvas :
  0 <= padding ->
  assemble_grid images padding rtf norm tr = (tr', Ok (g, canvas)) ->
  let H := n_rows g * new_height g + (n_rows g + 1) * padding in
  let W := n_cols g * new_width g + (n_cols g + 1) * padding in
  best_grid (n_images g) = Ok (n_rows g, n_cols g) /\
  0 <= H /\ 0 <= W /\
  shape canvas = [Z.to_nat H; Z.to_nat W] /\
  forall y x, 0 <= y < H -> 0 <= x < W ->
    (forall rc, In rc (cells g) -> placed g rc ->
                ~ in_cell g padding (fst rc) (snd rc) y x) ->
    get2 canvas y x = DEFAULT_BACKGROUND_COLOR.
Proof.
  intros Pp A H W. unfold assemble_grid, bind in A.
  destruct (assert_ndim images tr) as [t0 [[]|e]]; [|discriminate].
  unfold lift at 1 in A.
  destruct (squeeze_last images) as [imgs|e]; [|discriminate].
  unfold lift at 1 in A.
  destruct (grid_geometry imgs padding rtf) as [g0|e] eqn:G; [|discriminate].
  unfold lift at 1 in A.
  destruct (np_full2 _ _ _) as [grid0|e] eqn:N; [|discriminate].
  destruct (foldM _ _ _ _) as [t1 [grid1|e]] eqn:F; [|discriminate].
  unfold ret in A. inversion A; subst t1 g0 grid1; clear A.
  destruct (grid_geometry_inv _ _ _ _ G) as (B & _ & Rp & Cp & _).
  rewrite Rp, Cp in N. fold H W in N.
  destruct (np_full2_inv _ _ _ _ N) as (PH & PW & Sh & Len & Bg).
  destruct (foldM_place_frame cv _ _ _ _ _ _ _ _ _ _ _ _ F Sh Len) as (S2 & Fr).
  rewrite !Z2Nat.id in Fr by assumption.
  split; [exact B|]. split; [exact PH|]. split; [exact PW|].
  split; [exact S2|].
  intros y x By Bx Out. rewrite Fr; try assumption.
  - now apply Bg.
  - intros rc I Pl Wr. apply (Out rc I Pl).
    destruct (in_cells g rc I) as (Ir & Ic).
    unfold written in Wr. destruct Wr as (Wy & Wx). split.
    + apply (slice_within padding (new_height g) (n_rows g) (fst rc) y);
        assumption.
    + apply (slice_within padding (new_width g) (n_cols g) (snd rc) x);
        assumption.
Qed.

(** C9: after the assembly, every cell [(row, col)] of the layout with
    [row*cols + col >= N] holds the background value [0.3*255] at every
    sample of its placement rectangle, and so does every sample of the grid
    image outside all placement rectangles (the padding); for [N = 7] the
    layout is 2 x 4 and exactly one cell, [(1, 3)], is left without an
    image. *)
Theorem unplaced_cells_keep_background (cv : Cv2) images padding rtf norm
    tr tr' g canvas :
  0 <= padding ->
  assemble_grid images padding rtf norm tr = (tr', Ok (g, canvas)) ->
  let H := n_rows g * new_height g + (n_rows g + 1) * padding in
  let W := n_cols g * new_width g + (n_cols g + 1) * padding in
  best_grid (n_images g) = Ok (n_rows g, n_cols g) /\
  shape canvas = [Z.to_nat H; Z.to_nat W] /\
  (forall row col,
     0 <= row < n_rows g -> 0 <= col < n_cols g ->
     row * n_cols g + col >= n_images g ->
     forall y x, in_cell g padding row col y x ->
       get2 canvas y x = DEFAULT_BACKGROUND_COLOR) /\
  (forall y x, 0 <= y < H -> 0 <= x < W ->
     (forall row col, 0 <= row < n_rows g -> 0 <= col < n_cols g ->
        ~ in_cell g padding row col y x) ->
     get2 canvas y x = DEFAULT_BACKGROUND_COLOR) /\
  (n_images g = 7 ->
     n_rows g = 2 /\ n_cols g = 4 /\
     filter (unplaced g) (cells g) = [(1, 3)]).
Proof.
  intros Pp A H W.
  destruct (assemble_grid_frame cv _ _ _ _ _ _ _ _ Pp A)
    as (B & PH & PW & Sh & Fr). fold H W in PH, PW, Sh, Fr.
  split; [exact B|]. split; [exact Sh|]. split; [|split].
  - intros row col Br Bc Un y x In.
    assert (Bounds : (0 <= y < H) /\ (0 <= x < W)).
    { unfold in_cell, base_height, base_width in In. destruct In as (Iy & Ix).
      assert (0 <= (n_rows g - row - 1) * (padding + new_height g)) by nia.
      assert (0 <= (n_cols g - col - 1) * (padding + new_width g)) by nia.
      unfold H, W. split; nia. }
    destruct Bounds as (By & Bx). apply Fr; try assumption.
    intros rc I Pl In'. destruct (in_cells g rc I) as (Ir & Ic).
    destruct (cells_disjoint g padding row col (fst rc) (snd rc) y x)
      as (Er & Ec); try assumption; try lia.
    unfold placed in Pl. subst row col. lia.
  - intros y x By Bx Out. apply Fr; try assumption.
    intros rc I _. destruct (in_cells g rc I). now apply Out.
  - intros N7. rewrite N7 in B.
    assert (E7 : best_grid 7 = Ok (2, 4)) by reflexivity.
    rewrite E7 in B. inversion B as [[Er Ec]]. unfold cells, unplaced.
    rewrite <- Er, <- Ec, N7. split; [reflexivity|]. split; reflexivity.
Qed.

Lemma unplaced_cells_keep_background_witness :
  assemble_grid (H := cv2_pressing NO_KEY) (const_batch4 7 1 1 0) 1
                false false [] = ([], Ok (sample_geometry7, sample_canvas7)) /\
  shape sample_canvas7 = [5; 9]%nat /\
  (forall y x, in_cell sample_geometry7 1 1 3 y x ->
     get2 sample_canvas7 y x = DEFAULT_BACKGROUND_COLOR) /\
  filter (unplaced sample_geometry7) (cells sample_geometry7) = [(1, 3)].
Proof.
  assert (R : assemble_grid (H := cv2_pressing NO_KEY) (const_batch4 7 1 1 0)
                1 false false [] = ([], Ok (sample_geometry7, sample_canvas7)))
    by (vm_compute; reflexivity).
  split; [exact R|].
  pose proof (unplaced_cells_keep_background (cv2_pressing NO_KEY)
                (const_batch4 7 1 1 0) 1 false false [] []
                sample_geometry7 sample_canvas7 ltac:(lia) R)
    as (_ & Sh & Cells & _ & Seven).
  split; [exact Sh|]. split.
  - apply (Cells 1 3); simpl; lia.
  - apply Seven. reflexivity.
Defined.

(** * Further properties of the module *)

(** ** Shape of the layout *)

(** The layout of up to 16384 images is as square as the rounding to
    integers allows: it has at least as many columns as rows and at most
    two more. *)
Theorem best_grid_near_square (N : Z) :
  1 <= N <= MAX_COMPARED ->
  exists rows cols,
    best_grid_f64 N = Ok (rows, cols) /\ rows <= cols <= rows + 2.
Proof.
  intros B. rewrite (best_grid_f64_exact N B).
  destruct (best_grid_exact N ltac:(lia)) as (rows & cols & E & F).
  exists rows, cols. split; [exact E | nia].
Qed.

Lemma best_grid_near_square_witness :
  exists rows cols, best_grid_f64 8 = Ok (rows, cols) /\ rows <= cols <= rows + 2.
Proof. apply (best_grid_near_square 8). unfold MAX_COMPARED. lia. Defined.

(** In the layout of up to 16384 images fewer than [rows] cells stay
    without an image, and every row of the layout holds at least one
    image: the cells without an image are the last cells of the last
    row. *)
Theorem best_grid_last_row_only (N : Z) :
  1 <= N <= MAX_COMPARED ->
  exists rows cols,
    best_grid_f64 N = Ok (rows, cols) /\
    rows * cols - N < rows /\
    (rows - 1) * cols < N.
Proof.
  intros B. rewrite (best_grid_f64_exact N B).
  destruct (best_grid_exact N ltac:(lia)) as (rows & cols & E & F).
  exists rows, cols. split; [exact E | split; nia].
Qed.

Lemma best_grid_last_row_only_witness :
  exists rows cols,
    best_grid_f64 7 = Ok (rows, cols) /\
    rows * cols - 7 < rows /\ (rows - 1) * cols < 7.
Proof. apply (best_grid_last_row_only 7). unfold MAX_COMPARED. lia. Defined.

(** On a batch of up to 16384 images the geometry computed with the
    layout as binary64 evaluates it is the geometry of the model, which
    uses the exact layout. *)
Theorem grid_geometry_layout_f64 (images : ndarray) (padding : Z) (rtf : bool) :
  Z.of_nat (nth 0 (shape images) 0%nat) <= MAX_COMPARED ->
  grid_geometry_with best_grid_f64 images padding rtf
  = grid_geometry images padding rtf.
Proof.
  intros B. unfold grid_geometry, grid_geometry_with.
  destruct (shape images) as [|n hw]; [reflexivity|]. cbn [nth] in B.
  destruct n as [|n].
  - reflexivity.
  - rewrite (best_grid_f64_exact (Z.of_nat (S n))) by lia. reflexivity.
Qed.

Lemma grid_geometry_layout_f64_witness :
  grid_geometry_with best_grid_f64 (mkArr Float32 [4; 13; 13]%nat []) 1 true
  = grid_geometry (mkArr Float32 [4; 13; 13]%nat []) 1 true.
Proof.
  apply (grid_geometry_layout_f64 (mkArr Float32 [4; 13; 13]%nat []) 1 true).
  unfold MAX_COMPARED. simpl. lia.
Defined.

(** ** Degenerate batches *)

(** A batch without images, of shape [0, h, w, 1], makes [show_images_grid]
    raise ValueError (the layout of zero images divides 0 by 0.0 and converts
    the nan to an integer) before any external call. *)
Theorem show_images_grid_empty_batch (cv : Cv2) images h w wait padding
    rtf norm vn tr :
  shape images = [0%nat; h; w; 1%nat] ->
  show_images_grid images wait padding rtf norm vn tr = (tr, Err ValueError).
Proof.
  intros E. unfold show_images_grid, assemble_grid, bind, assert_ndim, ndim.
  rewrite E. simpl. unfold lift, squeeze_last. rewrite E. reflexivity.
Qed.

Lemma show_images_grid_empty_batch_witness :
  show_images_grid (H := cv2_pressing NO_KEY) (const_batch4 0 3 3 1)
                   (WaitBool true) 1 true false true []
  = ([], Err ValueError).
Proof.
  apply (show_images_grid_empty_batch (cv2_pressing NO_KEY)
           (const_batch4 0 3 3 1) 3 3 (WaitBool true) 1 true false true []).
  reflexivity.
Defined.

(** A batch of images of height 0 makes [show_images_grid] raise
    ZeroDivisionError before any external call, also when [resize_to_fit]
    is off: the scale is computed in both cases. *)
Theorem show_images_grid_zero_height (cv : Cv2) images n w wait padding
    rtf norm vn tr :
  shape images = [S n; 0%nat; w; 1%nat] ->
  show_images_grid images wait padding rtf norm vn tr
  = (tr, Err ZeroDivisionError).
Proof.
  intros E. unfold show_images_grid, assemble_grid, bind, assert_ndim, ndim.
  rewrite E. simpl. unfold lift, squeeze_last. rewrite E. simpl.
  unfold grid_geometry, grid_geometry_with. simpl shape. cbv iota.
  reflexivity.
Qed.

Lemma show_images_grid_zero_height_witness :
  show_images_grid (H := cv2_pressing NO_KEY) (const_batch4 2 0 3 1)
                   (WaitBool true) 1 false false true []
  = ([], Err ZeroDivisionError).
Proof.
  apply (show_images_grid_zero_height (cv2_pressing NO_KEY)
           (const_batch4 2 0 3 1) 1 3 (WaitBool true) 1 false false true []).
  reflexivity.
Defined.

(** ** Size of the grid image and position of the cells *)

(** With a padding that is not negative, every placement rectangle of the
    layout lies inside the grid image, at least [padding] samples away from
    each border, and the rectangles of two different rows (columns) are at
    least [padding] samples apart. *)
Theorem cells_inside_and_apart (g : geometry) (padding : Z)
    (row col y x row' col' y' x' : Z) :
  0 <= padding ->
  0 <= row < n_rows g -> 0 <= col < n_cols g ->
  0 <= row' < n_rows g -> 0 <= col' < n_cols g ->
  in_cell g padding row col y x ->
  in_cell g padding row' col' y' x' ->
  (padding <= y < n_rows g * new_height g + (n_rows g + 1) * padding - padding /\
   padding <= x < n_cols g * new_width g + (n_cols g + 1) * padding - padding) /\
  (row < row' -> y + padding < y') /\
  (col < col' -> x + padding < x').
Proof.
  unfold in_cell, base_height, base_width.
  intros Pp Br Bc Br' Bc' (Iy & Ix) (Iy' & Ix').
  assert (0 < new_height g) by lia. assert (0 < new_width g) by lia.
  assert (0 <= (n_rows g - row - 1) * (padding + new_height g)) by nia.
  assert (0 <= (n_cols g - col - 1) * (padding + new_width g)) by nia.
  split; [split; nia|]. split.
  - intros L. assert (0 <= (row' - row - 1) * (padding + new_height g)) by nia.
    nia.
  - intros L. assert (0 <= (col' - col - 1) * (padding + new_width g)) by nia.
    nia.
Qed.

Lemma cells_inside_and_apart_witness :
  (1 <= 1 < 2 * 1 + (2 + 1) * 1 - 1 /\ 1 <= 1 < 4 * 1 + (4 + 1) * 1 - 1) /\
  (0 < 1 -> 1 + 1 < 3) /\ (0 < 3 -> 1 + 1 < 7).
Proof.
  apply (cells_inside_and_apart sample_geometry7 1 0 0 1 1 1 3 3 7);
    unfold in_cell, base_height, base_width; simpl; lia.
Defined.

(** ** More on the sign encoding *)

Lemma in_interleave3 (b g r : list Q) (x : Q) :
  In x (interleave3 b g r) -> In x b \/ In x g \/ In x r.
Proof.
  revert g r. induction b as [|y b IH]; intros [|z g] [|t r] I;
    simpl in I; try contradiction.
  destruct I as [E|[E|[E|I]]]; subst; simpl; auto.
  destruct (IH g r I) as [J|[J|J]]; simpl; auto.
Qed.

(** Whenever the encoding succeeds, no sample of its result is negative. *)
Lemma visualize_nonneg (image out : ndarray) :
  visualize_grayscale_negative_values image = Ok out ->
  forall o, In o (data out) -> (0 <= o)%Q.
Proof.
  unfold visualize_grayscale_negative_values.
  destruct (negb (is_floating (dt image))); [discriminate|].
  match goal with
  | |- match nth_error ?s 2 with _ => _ end = _ -> _ =>
      destruct (nth_error s 2) as [c|]; [|discriminate]
  end.
  destruct (negb (Nat.eqb c 1)); [discriminate|].
  intros E. inversion E; subst out; clear E. simpl.
  intros o I. apply in_interleave3 in I.
  destruct I as [I|[I|I]]; rewrite ?map_map in I;
    apply in_map_iff in I; destruct I as (v & Ev & _); subst o.
  - destruct (Qltb v 0) eqn:C; [|apply Qle_refl].
    apply Qltb_lt in C. lra.
  - apply Qle_refl.
  - destruct (Qltb v 0) eqn:C; [apply Qle_refl|].
    now apply Qltb_ge in C.
Qed.

Lemma visualize_dtype (image out : ndarray) :
  visualize_grayscale_negative_values image = Ok out -> dt out = dt image.
Proof.
  unfold visualize_grayscale_negative_values.
  destruct (negb (is_floating (dt image))); [discriminate|].
  match goal with
  | |- match nth_error ?s 2 with _ => _ end = _ -> _ =>
      destruct (nth_error s 2) as [c|]; [|discriminate]
  end.
  destruct (negb (Nat.eqb c 1)); [discriminate|].
  intros E. inversion E. simpl.
  destruct (Nat.eqb (ndim image) 2); reflexivity.
Qed.

(** The encoding loses nothing: for the sample [v] at flat position [i] of
    a floating-point image of shape [h, w] or [h, w, 1], the result holds
    [blue] and [red] with [red - blue = v], at most one of them is not zero
    and both are at least zero. *)
Theorem sign_encoding_decodes (image : ndarray) (h w : nat) :
  is_floating (dt image) = true ->
  shape image = [h; w] \/ shape image = [h; w; 1%nat] ->
  exists out,
    visualize_grayscale_negative_values image = Ok out /\
    dt out = dt image /\
    forall i v, nth_error (data image) i = Some v ->
      exists blue red,
        nth_error (data out) (3 * i) = Some blue /\
        nth_error (data out) (3 * i + 2) = Some red /\
        (red - blue == v)%Q /\ (blue * red == 0)%Q /\
        (0 <= blue)%Q /\ (0 <= red)%Q.
Proof.
  intros F S.
  destruct (visualize_data image F) as (out & R & D & Sh).
  { unfold ndim. destruct S as [E|E]; rewrite E; reflexivity. }
  exists out. split; [exact R|]. split; [exact (visualize_dtype _ _ R)|].
  intros i v Hv. rewrite D.
  destruct (interleave3_nth
              (fun v => if Qltb v 0 then - v else 0)%Q (fun _ => 0%Q)
              (fun v => if Qltb v 0 then 0 else v)%Q _ i v Hv)
    as (B & _ & Rd).
  exists (if Qltb v 0 then - v else 0)%Q, (if Qltb v 0 then 0 else v)%Q.
  split; [exact B|]. split; [exact Rd|].
  destruct (Qltb v 0) eqn:C.
  - apply Qltb_lt in C. repeat split; try ring; lra.
  - apply Qltb_ge in C. repeat split; try ring; lra.
Qed.

Lemma sign_encoding_decodes_witness :
  exists out,
    visualize_grayscale_negative_values (image2 1 2 [(-2)%Q; 3%Q]) = Ok out /\
    data out = [2; 0; 0; 0; 0; 3]%Q.
Proof.
  destruct (sign_encoding_decodes (image2 1 2 [(-2)%Q; 3%Q]) 1 2 eq_refl
              (or_introl eq_refl)) as (out & R & _).
  exists out. split; [exact R|].
  vm_compute in R. inversion R. reflexivity.
Defined.



(** ** Ranges after the normalisation *)

(** The normalisation in the loop of [show_images_grid] never fails on an
    image with at least one sample, and every sample of its result lies
    between -255 and 255. *)
Theorem per_image_normalization_range (img : ndarray) :
  data img <> [] ->
  exists m out,
    np_max (np_abs img) = Ok m /\
    scale_by_max m img = Ok out /\
    shape out = shape img /\
    forall v, In v (data out) -> (Qabs v <= 255)%Q.
Proof.
  intros NE. pose proof eps_pos as EP.
  destruct (np_max_nonempty (np_abs img)) as (m & M).
  { simpl. destruct (data img); [congruence | discriminate]. }
  pose proof (np_max_abs_nonneg _ _ M) as P.
  pose proof (np_max_abs_char _ _ M) as (U & _).
  assert (D : (0 < m + eps)%Q) by lra.
  exists m, (amap (fun v => v / (m + eps) * 255)%Q img).
  split; [exact M|]. split; [apply scale_by_max_ok; lra|].
  split; [reflexivity|].
  intros v I. simpl in I. apply in_map_iff in I.
  destruct I as (v0 & E & I0). subst v. rewrite scaled_abs by exact P.
  assert (K : (0 <= 255 / (m + eps))%Q).
  { apply Qle_shift_div_l; [exact D | lra]. }
  apply Qle_trans with (m * (255 / (m + eps)))%Q.
  - apply Qmult_le_compat_r; [now apply U | exact K].
  - setoid_replace (m * (255 / (m + eps)))%Q with (255 * m / (m + eps))%Q
      by (field; lra).
    apply Qle_shift_div_r; [exact D | lra].
Qed.

Lemma per_image_normalization_range_witness :
  exists m out,
    np_max (np_abs (image2 1 2 [(-3)%Q; 1%Q])) = Ok m /\
    scale_by_max m (image2 1 2 [(-3)%Q; 1%Q]) = Ok out /\
    shape out = [1; 2]%nat /\
    forall v, In v (data out) -> (Qabs v <= 255)%Q.
Proof.
  apply (per_image_normalization_range (image2 1 2 [(-3)%Q; 1%Q])).
  discriminate.
Defined.



(** ** Order of the external calls *)

Lemma appends_ret {A} (P : event -> Prop) (a : A) : appends P (ret a).
Proof. intros tr. exists []. simpl. now rewrite app_nil_r. Qed.

Lemma appends_lift {A} (P : event -> Prop) (r : result A) : appends P (lift r).
Proof. intros tr. exists []. simpl. now rewrite app_nil_r. Qed.

Lemma appends_emit (P : event -> Prop) (e : event) : P e -> appends P (emit e).
Proof. intros H tr. exists [e]. simpl. auto. Qed.

Lemma appends_bind {A B} (P : event -> Prop) (m : M A) (k : A -> M B) :
  appends P m -> (forall a, appends P (k a)) -> appends P (bind m k).
Proof.
  intros Hm Hk tr. unfold bind. destruct (Hm tr) as (r1 & E1 & F1).
  destruct (m tr) as [tr1 [a|e]]; simpl in E1; subst tr1.
  - destruct (Hk a (tr ++ r1)) as (r2 & E2 & F2). exists (r1 ++ r2).
    rewrite E2, app_assoc. split; [reflexivity | now apply Forall_app].
  - now exists r1.
Qed.

Lemma appends_foldM {S A} (P : event -> Prop) (f : S -> A -> M S) (l : list A) :
  (forall s a, appends P (f s a)) -> forall s, appends P (foldM f l s).
Proof.
  intros Hf. induction l as [|a l IH]; intros s; simpl.
  - apply appends_ret.
  - apply appends_bind; [apply Hf | exact IH].
Qed.

Lemma appends_weaken {A} (P Q : event -> Prop) (m : M A) :
  (forall e, P e -> Q e) -> appends P m -> appends Q m.
Proof.
  intros I Hm tr. destruct (Hm tr) as (r & E & F). exists r.
  split; [exact E | now apply (Forall_impl Q I)].
Qed.

Lemma appends_resize_call (cv : Cv2) fx fy img :
  appends (fun e => is_resize e = true) (resize_call fx fy img).
Proof.
  apply appends_bind; [now apply appends_emit | intros; apply appends_lift].
Qed.

(** The first part of [show_image] calls nothing but the resize, and
    nothing at all without [resize_to_fit]. *)
Lemma appends_prepare_image (cv : Cv2) image rtf norm :
  appends (fun e => is_resize e = true /\ rtf = true)
          (prepare_image image rtf norm).
Proof.
  unfold prepare_image, py_assert. apply appends_bind.
  - destruct (is_floating (dt image)); [apply appends_ret | apply appends_lift].
  - intros _. apply appends_bind.
    + destruct norm; [apply appends_bind; intros; apply appends_lift|].
      apply appends_ret.
    + intros img. destruct rtf; [|apply appends_ret].
      apply appends_bind; [apply appends_lift|]. intros h.
      apply appends_bind; [apply appends_lift|]. intros hs.
      apply (appends_weaken (fun e => is_resize e = true));
        [auto | apply appends_resize_call].
Qed.

(** The loop body calls nothing but the resize, and nothing at all without
    [resize_to_fit]. *)
Lemma appends_place_cell (cv : Cv2) images g padding rtf norm grid rc :
  appends (fun e => is_resize e = true /\ rtf = true)
          (place_cell images g padding rtf norm grid rc).
Proof.
  unfold place_cell. destruct rc as [row col].
  destruct (row * n_cols g + col >=? n_images g); [apply appends_ret|].
  apply appends_bind.
  - unfold resize. destruct rtf; [|apply appends_ret].
    apply (appends_weaken (fun e => is_resize e = true));
      [auto | apply appends_resize_call].
  - intros img. apply appends_bind; [|intros; apply appends_lift].
    destruct norm; [|apply appends_ret].
    apply appends_bind; intros; apply appends_lift.
Qed.

Lemma appends_assemble_grid (cv : Cv2) images padding rtf norm :
  appends (fun e => is_resize e = true /\ rtf = true)
          (assemble_grid images padding rtf norm).
Proof.
  unfold assemble_grid. apply appends_bind.
  - unfold assert_ndim.
    destruct (_ || _); [apply appends_ret|].
    destruct (Nat.eqb _ 1); apply appends_lift.
  - intros _. apply appends_bind; [apply appends_lift|]. intros imgs.
    apply appends_bind; [apply appends_lift|]. intros g.
    apply appends_bind; [apply appends_lift|]. intros grid.
    apply appends_bind; [|intros; apply appends_ret].
    apply appends_foldM. intros. apply appends_place_cell.
Qed.

(** The trace of a run of [show_image] from a prepared buffer on: the debug
    line if the encoding is tried, then the window and the wait if nothing
    failed. *)
Lemma show_image_trace (cv : Cv2) image wait rtf norm vn tr tr' r :
  show_image image wait rtf norm vn tr = (tr', r) ->
  exists resizes log,
    Forall (fun e => is_resize e = true /\ rtf = true) resizes /\
    (log = [] \/ log = [EvLogDebug] /\ vn = true) /\
    match r with
    | Ok _ => exists shown,
        tr' = tr ++ resizes ++ log ++ [EvImshow shown; EvWaitKey (wait_ms_of wait)] /\
        (vn = true -> forall v, In v (data shown) -> (0 <= v)%Q)
    | Err _ => tr' = tr ++ resizes ++ log
    end.
Proof.
  unfold show_image, bind. intros R.
  destruct (appends_prepare_image cv image rtf norm tr) as (rs & E & F).
  destruct (prepare_image image rtf norm tr) as [t1 [buf|e]];
    simpl in E; subst t1.
  2:{ inversion R; subst. exists rs, []. rewrite app_nil_r. auto. }
  exists rs. destruct (vn && has_negative buf) eqn:G.
  - apply andb_true_iff in G. destruct G as (Vn & Hn).
    exists [EvLogDebug]. split; [exact F|]. split; [auto|].
    unfold emit, lift in R.
    destruct (visualize_grayscale_negative_values buf) as [enc|e] eqn:V.
    + unfold waitKey_call, bind, emit, ret in R. inversion R; subst.
      exists (amap (fun v => v / 255)%Q enc). split.
      * now rewrite <- !app_assoc.
      * intros _ v I. simpl in I. apply in_map_iff in I.
        destruct I as (o & Eo & Io). subst v.
        pose proof (visualize_nonneg _ _ V o Io).
        apply Qle_shift_div_l; [reflexivity | lra].
    + inversion R; subst. now rewrite <- !app_assoc.
  - exists []. split; [exact F|]. split; [auto|].
    unfold ret, emit, waitKey_call, bind, emit, ret in R. inversion R; subst.
    exists (amap (fun v => v / 255)%Q buf). split.
    + now rewrite <- !app_assoc.
    + intros Vn v I. subst vn. simpl in G.
      simpl in I. apply in_map_iff in I.
      destruct I as (o & Eo & Io). subst v.
      pose proof (proj1 (has_negative_none buf) G o Io).
      apply Qle_shift_div_l; [reflexivity | lra].
Qed.

Lemma Forall_guard_nil {A} (P : A -> Prop) (b : bool) (l : list A) :
  Forall (fun e => P e /\ b = true) l -> b = false -> l = [].
Proof.
  intros F E. destruct l as [|x l]; [reflexivity|].
  inversion F as [|? ? (_ & C) _]. congruence.
Qed.

Lemma resize_not_display (e : event) : is_resize e = true -> is_display e = false.
Proof. destruct e; simpl; congruence. Qed.

(** A run of [show_image] presents a window at most once, as its last two
    external calls ([imshow], then [waitKey] with the wait derived from
    [wait]), and only when it returns; a run that raises has presented no
    window. *)
Theorem show_image_window_discipline (cv : Cv2) image wait rtf norm vn tr tr' r :
  show_image image wait rtf norm vn tr = (tr', r) ->
  exists pre,
    Forall (fun e => is_display e = false) pre /\
    match r with
    | Ok _ => exists shown,
        tr' = tr ++ pre ++ [EvImshow shown; EvWaitKey (wait_ms_of wait)]
    | Err _ => tr' = tr ++ pre
    end.
Proof.
  intros R. destruct (show_image_trace cv _ _ _ _ _ _ _ _ R)
    as (rs & log & F & L & T).
  exists (rs ++ log). split.
  - apply Forall_app. split.
    + apply (Forall_impl _ (fun e H => resize_not_display e (proj1 H)) F).
    + destruct L as [L|(L & _)]; subst log; repeat constructor.
  - destruct r as [b|e].
    + destruct T as (shown & E & _). exists shown.
      rewrite E, <- ?app_assoc. reflexivity.
    + rewrite T, <- ?app_assoc. reflexivity.
Qed.

Lemma show_image_window_discipline_witness :
  exists pre,
    Forall (fun e => is_display e = false) pre /\
    [] = [] ++ pre.
Proof.
  apply (show_image_window_discipline (cv2_pressing NO_KEY)
           (mkArr UInt8 [1; 1]%nat [1%Q]) (WaitBool true) false false true
           [] [] (Err AssertionError)).
  reflexivity.
Defined.

(** With [visualize_negative] set, the image handed to [imshow] never has a
    negative sample. *)
Theorem show_image_never_shows_negative (cv : Cv2) image wait rtf norm tr tr' b :
  show_image image wait rtf norm true tr = (tr', Ok b) ->
  exists pre shown,
    tr' = tr ++ pre ++ [EvImshow shown; EvWaitKey (wait_ms_of wait)] /\
    forall v, In v (data shown) -> (0 <= v)%Q.
Proof.
  intros R. destruct (show_image_trace cv _ _ _ _ _ _ _ _ R)
    as (rs & log & _ & _ & shown & E & N).
  exists (rs ++ log), shown.
  split; [rewrite E, <- ?app_assoc; reflexivity | now apply N].
Qed.

Lemma show_image_never_shows_negative_witness :
  exists pre shown,
    [EvLogDebug; EvImshow (mkArr Float64 [1; 2; 3]%nat
                             [2 / 255; 0 / 255; 0 / 255;
                              0 / 255; 0 / 255; 3 / 255]%Q);
     EvWaitKey 0]
    = [] ++ pre ++ [EvImshow shown; EvWaitKey (wait_ms_of (WaitBool true))] /\
    forall v, In v (data shown) -> (0 <= v)%Q.
Proof.
  apply (show_image_never_shows_negative (cv2_pressing NO_KEY)
           (image2 1 2 [(-2)%Q; 3%Q]) (WaitBool true) false false [] _ true).
  reflexivity.
Defined.

(** A run of [show_images_grid] calls the resize primitive only (and not
    at all without [resize_to_fit]) until the grid image is assembled; then
    comes at most one debug line and, if nothing failed, the window and the
    wait as the last two calls.  A run that raises has presented no
    window. *)
Theorem show_images_grid_window_discipline (cv : Cv2) images wait padding
    rtf norm vn tr tr' r :
  show_images_grid images wait padding rtf norm vn tr = (tr', r) ->
  exists resizes log,
    Forall (fun e => is_resize e = true) resizes /\
    (rtf = false -> resizes = []) /\
    (log = [] \/ log = [EvLogDebug]) /\
    match r with
    | Ok _ => exists shown,
        tr' = tr ++ resizes ++ log
                 ++ [EvImshow shown; EvWaitKey (wait_ms_of wait)]
    | Err _ => tr' = tr ++ resizes ++ log
    end.
Proof.
  unfold show_images_grid, bind. intros R.
  destruct (appends_assemble_grid cv images padding rtf norm tr) as (rs & E & F).
  exists rs.
  assert (F1 : Forall (fun e => is_resize e = true) rs)
    by (apply (Forall_impl _ (fun e H => proj1 H) F)).
  assert (F2 : rtf = false -> rs = []) by (apply (Forall_guard_nil _ _ _ F)).
  destruct (assemble_grid images padding rtf norm tr) as [t1 [gi|e]];
    simpl in E; subst t1.
  - destruct (show_image_trace cv _ _ _ _ _ _ _ _ R) as (rs' & log & F' & L & T).
    assert (N : rs' = []) by (apply (Forall_guard_nil _ _ _ F'); reflexivity).
    subst rs'. exists log. split; [exact F1|]. split; [exact F2|].
    split; [destruct L as [L|(L & _)]; auto|].
    destruct r as [b|e].
    + destruct T as (shown & T & _). exists shown.
      rewrite T. simpl. rewrite <- ?app_assoc. reflexivity.
    + rewrite T. simpl. rewrite <- ?app_assoc. reflexivity.
  - inversion R; subst. exists []. rewrite app_nil_r. auto.
Qed.

Lemma show_images_grid_window_discipline_witness :
  exists resizes log,
    Forall (fun e => is_resize e = true) resizes /\
    (true = false -> resizes = []) /\
    (log = [] \/ log = [EvLogDebug]) /\
    [EvResize (-10 # 1) (-10 # 1)
              (take_image (mkArr Float32 [1; 10; 10]%nat
                                 (data (const_batch4 1 10 10 1))) 0 10 10)]
    = [] ++ resizes ++ log.
Proof.
  apply (show_images_grid_window_discipline (cv2_pressing NO_KEY)
           (const_batch4 1 10 10 1) (WaitBool true) 300 true false true
           [] _ (Err Cv2Error)).
  vm_compute. reflexivity.
Defined.

(** ** The cells in linear order *)

Lemma map_add_seq (a s len : nat) :
  map (Nat.add a) (seq s len) = seq (a + s) len.
Proof.
  revert s. induction len as [|len IH]; intros s; simpl; [reflexivity|].
  rewrite IH. now rewrite Nat.add_succ_r.
Qed.

Lemma flat_map_seq_rows (R C : nat) :
  flat_map (fun r => seq (r * C) C) (seq 0 R) = seq 0 (R * C).
Proof.
  induction R as [|R IH]; [reflexivity|].
  rewrite seq_S, flat_map_app, IH. simpl flat_map. rewrite app_nil_r.
  replace (S R * C)%nat with (R * C + C)%nat by lia.
  now rewrite seq_app.
Qed.

(** The loops visit the linear indices 0, 1, ..., rows*cols - 1 in this
    order. *)
Lemma cells_index (g : geometry) :
  0 <= n_cols g ->
  map (fun rc => Z.to_nat (cell_index g rc)) (cells g)
  = seq 0 (Z.to_nat (n_rows g) * Z.to_nat (n_cols g)).
Proof.
  intros PC. unfold cells, range.
  rewrite <- flat_map_seq_rows.
  generalize (seq 0 (Z.to_nat (n_rows g))) as rows.
  induction rows as [|r rows IH]; [reflexivity|].
  simpl. rewrite map_app, IH. f_equal.
  rewrite !map_map.
  assert (E : seq (r * Z.to_nat (n_cols g)) (Z.to_nat (n_cols g))
              = map (Nat.add (r * Z.to_nat (n_cols g)))
                    (seq 0 (Z.to_nat (n_cols g)))).
  { rewrite map_add_seq. f_equal. lia. }
  rewrite E. apply map_ext. intros c. unfold cell_index. simpl. nia.
Qed.

Lemma cells_NoDup (g : geometry) : 0 <= n_cols g -> NoDup (cells g).
Proof.
  intros PC. apply (NoDup_map_inv (fun rc => Z.to_nat (cell_index g rc))).
  rewrite cells_index by exact PC. apply seq_NoDup.
Qed.

Lemma filter_lt_seq (n m : nat) :
  (n <= m)%nat -> filter (fun k => Nat.ltb k n) (seq 0 m) = seq 0 n.
Proof.
  induction m as [|m IH]; intros L.
  - now replace n with 0%nat by lia.
  - rewrite seq_S, filter_app. simpl.
    destruct (Nat.ltb_spec m n).
    + assert (n = S m) by lia. subst n.
      rewrite seq_S. f_equal.
      rewrite (filter_ext_in _ (fun _ => true)).
      * clear. induction (seq 0 m); simpl; congruence.
      * intros k I. apply in_seq in I. apply Nat.ltb_lt. lia.
    + rewrite app_nil_r. apply IH. lia.
Qed.

Lemma map_filter_index {A} (f : A -> nat) (p : nat -> bool) (l : list A) :
  map f (filter (fun a => p (f a)) l) = filter p (map f l).
Proof.
  induction l as [|a l IH]; simpl; [reflexivity|].
  destruct (p (f a)); simpl; now rewrite IH.
Qed.

(** The resize calls of the loop over a list of cells, with
    [resize_to_fit]: one per cell that has an image, in the order of the
    list. *)
Lemma foldM_place_trace (cv : Cv2) images g padding norm l :
  forall grid tr tr' grid',
  foldM (place_cell images g padding true norm) l grid tr = (tr', Ok grid') ->
  tr' = tr ++ map (fun rc => resize_event images g (Z.to_nat (cell_index g rc)))
                  (filter (fun rc => negb (unplaced g rc)) l).
Proof.
  induction l as [|rc l IH]; intros grid tr tr' grid' F; simpl in F.
  - inversion F. now rewrite app_nil_r.
  - unfold bind in F.
    destruct (place_cell images g padding true norm grid rc tr)
      as [t1 [g1|e]] eqn:P; [|discriminate].
    apply IH in F. subst tr'. simpl.
    unfold place_cell in P. destruct rc as [row col].
    unfold unplaced, cell_index. simpl fst. simpl snd.
    destruct (row * n_cols g + col >=? n_images g).
    + inversion P; subst. reflexivity.
    + simpl. unfold resize, resize_call, bind, emit, lift in P.
      destruct (cv2_resize _ _ _) as [img|e]; [|discriminate].
      assert (E : t1 = tr ++ [resize_event images g
                                (Z.to_nat (row * n_cols g + col))]).
      { destruct norm.
        - destruct (np_max (np_abs img)); [|discriminate].
          unfold ret in P.
          destruct (scale_by_max _ img); [|discriminate]. now inversion P.
        - unfold ret in P. now inversion P. }
      rewrite E, <- app_assoc. reflexivity.
Qed.

(** With [resize_to_fit], an assembly that succeeds has called the resize
    primitive once for each image of the batch, in the order of the batch,
    with the same factor for both axes, and has made no other external
    call; without [resize_to_fit] it has made no external call at all. *)
Theorem assemble_grid_resizes_each_image_once (cv : Cv2) images imgs padding
    rtf norm tr tr' g canvas :
  squeeze_last images = Ok imgs ->
  assemble_grid images padding rtf norm tr = (tr', Ok (g, canvas)) ->
  width_scaling g = height_scaling g /\
  tr' = tr ++ (if rtf
               then map (resize_event imgs g) (seq 0 (Z.to_nat (n_images g)))
               else []).
Proof.
  intros S A.
  destruct rtf.
  - unfold assemble_grid, bind in A.
    destruct (assert_ndim images tr) as [t0 [[]|e]] eqn:An; [|discriminate].
    assert (t0 = tr); [|subst t0].
    { unfold assert_ndim in An. destruct (_ || _); [now inversion An|].
      destruct (Nat.eqb _ 1); discriminate. }
    unfold lift at 1 in A. rewrite S in A. unfold lift at 1 in A.
    destruct (grid_geometry imgs padding true) as [g0|e] eqn:G; [|discriminate].
    unfold lift at 1 in A.
    destruct (np_full2 _ _ _) as [grid0|e]; [|discriminate].
    destruct (foldM _ _ _ _) as [t1 [grid1|e]] eqn:F; [|discriminate].
    unfold ret in A. inversion A; subst t1 g0 grid1; clear A.
    destruct (grid_geometry_inv _ _ _ _ G) as (B & _ & _ & _ & _ & Ws & _).
    split; [exact Ws|].
    apply foldM_place_trace in F. rewrite F. f_equal.
    destruct (best_grid_positive _ _ _ B) as (PN & PR & PC).
    rewrite <- (map_map (fun rc => Z.to_nat (cell_index g rc))
                        (resize_event imgs g)).
    f_equal.
    rewrite (filter_ext_in _
               (fun rc => Nat.ltb (Z.to_nat (cell_index g rc))
                                  (Z.to_nat (n_images g)))).
    2:{ intros rc I. destruct (in_cells g rc I) as (Ir & Ic).
        unfold unplaced, cell_index.
        destruct (Z.geb_spec (fst rc * n_cols g + snd rc) (n_images g));
          destruct (Nat.ltb_spec (Z.to_nat (fst rc * n_cols g + snd rc))
                                 (Z.to_nat (n_images g)));
          simpl; try reflexivity; nia. }
    rewrite (map_filter_index (fun rc => Z.to_nat (cell_index g rc))
               (fun k => Nat.ltb k (Z.to_nat (n_images g)))).
    rewrite cells_index by lia. apply filter_lt_seq.
    assert (n_images g <= n_rows g * n_cols g).
    { unfold best_grid in B. destruct (n_images g <=? 0); [discriminate|].
      inversion B as [[Er Ec]]. rewrite Er.
      pose proof (np_ceil_div_spec (n_images g) (n_rows g) ltac:(lia)). nia. }
    nia.
  - destruct (appends_assemble_grid cv images padding false norm tr)
      as (rs & E & F).
    rewrite A in E. simpl in E.
    rewrite (Forall_guard_nil _ _ _ F eq_refl) in E. split; [|exact E].
    unfold assemble_grid, bind in A.
    destruct (assert_ndim images tr) as [t0 [[]|e]]; [|discriminate].
    unfold lift at 1 in A. rewrite S in A. unfold lift at 1 in A.
    destruct (grid_geometry imgs padding false) as [g0|e] eqn:G; [|discriminate].
    unfold lift at 1 in A.
    destruct (np_full2 _ _ _) as [grid0|e]; [|discriminate].
    destruct (foldM _ _ _ _) as [t1 [grid1|e]]; [|discriminate].
    unfold ret in A. inversion A; subst.
    now destruct (grid_geometry_inv _ _ _ _ G) as (_ & _ & _ & _ & _ & Ws & _).
Qed.

Lemma assemble_grid_resizes_each_image_once_witness :
  exists canvas,
    assemble_grid (H := cv2_same_size NO_KEY) (const_batch4 1 500 1 0) 0
                  true false []
    = ([] ++ map (resize_event (mkArr Float32 [1; 500; 1]%nat
                                      (data (const_batch4 1 500 1 0)))
                               sample_fit_geometry)
                 (seq 0 1),
       Ok (sample_fit_geometry, canvas)).
Proof.
  exists (match snd sample_fit_run with
          | Ok (_, c) => c
          | Err _ => mkArr Float64 [] []
          end).
  assert (A : assemble_grid (H := cv2_same_size NO_KEY)
                (const_batch4 1 500 1 0) 0 true false []
              = (fst sample_fit_run,
                 Ok (sample_fit_geometry,
                     match snd sample_fit_run with
                     | Ok (_, c) => c
                     | Err _ => mkArr Float64 [] []
                     end))) by (vm_compute; reflexivity).
  pose proof (proj2 (assemble_grid_resizes_each_image_once
                       (cv2_same_size NO_KEY) (const_batch4 1 500 1 0)
                       (mkArr Float32 [1; 500; 1]%nat
                              (data (const_batch4 1 500 1 0)))
                       0 true false [] _ _ _ eq_refl A)) as E.
  rewrite A, E. reflexivity.
Defined.

(** ** The images in their cells *)

Lemma foldM_app_ok {S A} (f : S -> A -> M S) (l1 l2 : list A) :
  forall s tr tr' s',
  foldM f (l1 ++ l2) s tr = (tr', Ok s') ->
  exists tm sm, foldM f l1 s tr = (tm, Ok sm) /\ foldM f l2 sm tm = (tr', Ok s').
Proof.
  induction l1 as [|a l1 IH]; intros s tr tr' s' F; simpl in *.
  - exists tr, s. split; [reflexivity | exact F].
  - unfold bind in *. destruct (f s a tr) as [t1 [s1|e]]; [|discriminate].
    now apply IH.
Qed.

Lemma foldM_cons_ok {S A} (f : S -> A -> M S) (a : A) (l : list A) :
  forall s tr tr' s',
  foldM f (a :: l) s tr = (tr', Ok s') ->
  exists t1 s1, f s a tr = (t1, Ok s1) /\ foldM f l s1 t1 = (tr', Ok s').
Proof.
  intros s tr tr' s' F. simpl in F. unfold bind in F.
  destruct (f s a tr) as [t1 [s1|e]]; [|discriminate]. eauto.
Qed.

Lemma range_in (n z : Z) : 0 <= z < n -> In z (range n).
Proof.
  intros B. unfold range. apply in_map_iff. exists (Z.to_nat z).
  split; [lia | apply in_seq; lia].
Qed.

Lemma cells_in (g : geometry) (row col : Z) :
  0 <= row < n_rows g -> 0 <= col < n_cols g -> In (row, col) (cells g).
Proof.
  intros Br Bc. unfold cells. apply in_flat_map. exists row.
  split; [now apply range_in|]. apply in_map. now apply range_in.
Qed.

Lemma broadcast_shape2_2d (h w : nat) :
  broadcast_shape2 [h; w] = Some (Z.of_nat h, Z.of_nat w).
Proof. destruct h as [|[|h]]; reflexivity. Qed.

(** What an assignment to a slice writes: sample [(y - a, x - c)] of the
    value, for a value of the size of the slice. *)
Lemma setitem_slice2_inside grid h0 h1 w0 w1 v grid' (H W vh vw : nat) :
  setitem_slice2 grid h0 h1 w0 w1 v = Ok grid' ->
  shape grid = [H; W] -> length (data grid) = (H * W)%nat ->
  shape v = [vh; vw] ->
  forall y x, 0 <= y < Z.of_nat H -> 0 <= x < Z.of_nat W ->
    slice_index (Z.of_nat H) h0 <= y < slice_index (Z.of_nat H) h1 ->
    slice_index (Z.of_nat W) w0 <= x < slice_index (Z.of_nat W) w1 ->
    slice_index (Z.of_nat H) h1 - slice_index (Z.of_nat H) h0 = Z.of_nat vh ->
    slice_index (Z.of_nat W) w1 - slice_index (Z.of_nat W) w0 = Z.of_nat vw ->
    get2 grid' y x
    = nth (Z.to_nat ((y - slice_index (Z.of_nat H) h0) * Z.of_nat vw
                     + (x - slice_index (Z.of_nat W) w0))) (data v) 0%Q.
Proof.
  unfold setitem_slice2. intros S Sh Len Sv. rewrite Sh, Sv in S.
  rewrite broadcast_shape2_2d in S.
  match type of S with (if ?c then _ else _) = _ => destruct c end;
    [|discriminate].
  inversion S; subst grid'; clear S.
  intros y x By Bx Iy Ix Ey Ex. unfold get2. simpl.
  set (k := Z.to_nat (y * Z.of_nat W + x)).
  assert (Ek : Z.of_nat k = y * Z.of_nat W + x) by (unfold k; nia).
  assert (Lk : (k < length (data grid))%nat) by (rewrite Len; nia).
  rewrite nth_tabulate by exact Lk. rewrite Ek.
  destruct (flat_index y x (Z.of_nat W)) as (Dy & Dx); [lia | lia |].
  rewrite Dy, Dx.
  match goal with |- (if ?c then _ else _) = _ => destruct c eqn:C end.
  - f_equal. f_equal.
    destruct (Z.eqb_spec (Z.of_nat vh) 1); destruct (Z.eqb_spec (Z.of_nat vw) 1);
      nia.
  - exfalso. rewrite !andb_false_iff, !Z.leb_gt, !Z.ltb_ge in C. lia.
Qed.

Lemma foldM_place_length (cv : Cv2) images g padding rtf norm (H W : nat) l :
  forall grid tr tr' grid',
  foldM (place_cell images g padding rtf norm) l grid tr = (tr', Ok grid') ->
  shape grid = [H; W] -> length (data grid) = (H * W)%nat ->
  length (data grid') = (H * W)%nat.
Proof.
  induction l as [|rc l IH]; intros grid tr tr' grid' F Sh Len; simpl in F.
  - inversion F; subst. exact Len.
  - unfold bind in F.
    destruct (place_cell images g padding rtf norm grid rc tr)
      as [t1 [g1|e]] eqn:P; [|discriminate].
    destruct (place_cell_frame cv _ _ _ _ _ _ _ _ _ _ H W P Sh Len)
      as (S1 & L1 & _).
    exact (IH _ _ _ _ F S1 L1).
Qed.

(** Without resize and normalisation, every image of the batch is found
    unchanged in its cell of the assembled grid image: sample [(i, j)] of
    image [n = row*cols + col] is at [(base_height + i, base_width + j)]. *)
Theorem placed_cells_hold_their_images (cv : Cv2) images imgs padding
    tr tr' g canvas :
  0 <= padding ->
  squeeze_last images = Ok imgs ->
  assemble_grid images padding false false tr = (tr', Ok (g, canvas)) ->
  forall row col i j,
    0 <= row < n_rows g -> 0 <= col < n_cols g ->
    row * n_cols g + col < n_images g ->
    0 <= i < Z.of_nat (img_height g) -> 0 <= j < Z.of_nat (img_width g) ->
    get2 canvas (base_height g padding row + i) (base_width g padding col + j)
    = nth (Z.to_nat (i * Z.of_nat (img_width g) + j))
          (data (take_image imgs (Z.to_nat (row * n_cols g + col))
                            (img_height g) (img_width g))) 0%Q.
Proof.
  intros Pp S A row col i j Br Bc Pl Bi Bj.
  unfold assemble_grid, bind in A.
  destruct (assert_ndim images tr) as [t0 [[]|e]]; [|discriminate].
  unfold lift at 1 in A. rewrite S in A. unfold lift at 1 in A.
  destruct (grid_geometry imgs padding false) as [g0|e] eqn:G; [|discriminate].
  unfold lift at 1 in A.
  destruct (np_full2 _ _ _) as [grid0|e] eqn:N; [|discriminate].
  destruct (foldM _ _ _ _) as [t1 [grid1|e]] eqn:F; [|discriminate].
  unfold ret in A. inversion A; subst t1 g0 grid1; clear A.
  destruct (grid_geometry_inv _ _ _ _ G) as (B & _ & Rp & Cp & _ & _ & Sz).
  destruct (Sz eq_refl) as (Nh & Nw). clear Sz.
  rewrite Rp, Cp in N.
  set (H := n_rows g * new_height g + (n_rows g + 1) * padding) in *.
  set (W := n_cols g * new_width g + (n_cols g + 1) * padding) in *.
  destruct (np_full2_inv _ _ _ _ N) as (PH & PW & Sh & Len & _).
  destruct (in_split _ _ (cells_in g row col Br Bc)) as (l1 & l2 & Ec).
  pose proof (cells_NoDup g ltac:(lia)) as ND. rewrite Ec in ND.
  apply NoDup_remove_2 in ND.
  rewrite Ec in F. apply foldM_app_ok in F.
  destruct F as (tm & gm & F1 & F2).
  destruct (foldM_place_frame cv _ _ _ _ _ _ _ _ _ _ _ _ F1 Sh Len) as (Sm & _).
  pose proof (foldM_place_length cv _ _ _ _ _ _ _ _ _ _ _ _ F1 Sh Len) as Lm.
  apply foldM_cons_ok in F2. destruct F2 as (t2 & g2 & P & F2).
  destruct (place_cell_frame cv _ _ _ _ _ _ _ _ _ _ _ _ P Sm Lm) as (S2 & L2 & _).
  destruct (foldM_place_frame cv _ _ _ _ _ _ _ _ _ _ _ _ F2 S2 L2) as (_ & Fr).
  rewrite !Z2Nat.id in Fr by assumption.
  set (y := base_height g padding row + i).
  set (x := base_width g padding col + j).
  assert (Geo : (0 <= base_height g padding row /\
                 base_height g padding row + new_height g <= H) /\
                (0 <= base_width g padding col /\
                 base_width g padding col + new_width g <= W)).
  { unfold base_height, base_width, H, W.
    assert (0 <= (n_rows g - row - 1) * (padding + new_height g)) by nia.
    assert (0 <= (n_cols g - col - 1) * (padding + new_width g)) by nia.
    split; split; nia. }
  destruct Geo as ((Gy1 & Gy2) & (Gx1 & Gx2)).
  assert (By : 0 <= y < H) by (unfold y; lia).
  assert (Bx : 0 <= x < W) by (unfold x; lia).
  assert (In0 : in_cell g padding row col y x).
  { unfold in_cell, y, x. lia. }
  rewrite Fr; try assumption.
  - unfold place_cell in P.
    destruct (Z.geb_spec (row * n_cols g + col) (n_images g)); [lia|].
    unfold resize, bind, ret, lift in P.
    destruct (setitem_slice2 _ _ _ _ _ _) as [gr|] eqn:St; [|discriminate].
    inversion P; subst gr t2; clear P.
    assert (SI : forall d b, 0 <= b <= d -> slice_index d b = b).
    { intros d b Bd. unfold slice_index.
      destruct (Z.ltb_spec b 0); lia. }
    rewrite (setitem_slice2_inside _ _ _ _ _ _ _ _ _
               (img_height g) (img_width g) St Sm Lm eq_refl y x);
      rewrite ?Z2Nat.id by assumption; rewrite ?SI by lia;
      try lia.
    f_equal. unfold y, x. f_equal. ring.
  - intros rc I Plc Wr. destruct (in_cells g rc) as (Ir & Ic).
    { rewrite Ec. apply in_or_app. right. now right. }
    unfold written in Wr. destruct Wr as (Wy & Wx).
    assert (In1 : in_cell g padding (fst rc) (snd rc) y x).
    { split.
      - apply (slice_within padding (new_height g) (n_rows g) (fst rc) y);
          assumption.
      - apply (slice_within padding (new_width g) (n_cols g) (snd rc) x);
          assumption. }
    destruct (cells_disjoint g padding row col (fst rc) (snd rc) y x)
      as (Er & Ec'); try assumption; try lia.
    apply ND. apply in_or_app. right.
    destruct rc as [r c]. simpl in Er, Ec'. now subst r c.
Qed.

Lemma placed_cells_hold_their_images_witness :
  get2 sample_canvas4 (base_height sample_geometry4 1 1 + 1)
                      (base_width sample_geometry4 1 0 + 0)
  = nth (Z.to_nat (1 * 2 + 0))
        (data (take_image (mkArr Float32 [4; 2; 2]%nat (data sample_batch4))
                          (Z.to_nat (1 * 2 + 0)) 2 2)) 0%Q.
Proof.
  assert (A : assemble_grid (H := cv2_pressing NO_KEY) sample_batch4 1
                            false false []
              = ([], Ok (sample_geometry4, sample_canvas4)))
    by (vm_compute; reflexivity).
  apply (placed_cells_hold_their_images (cv2_pressing NO_KEY) sample_batch4
           (mkArr Float32 [4; 2; 2]%nat (data sample_batch4)) 1 [] []
           sample_geometry4 sample_canvas4 ltac:(lia) eq_refl A 1 0 1 0);
    simpl; lia.
Defined.

(** ** From the assembled grid image to the window *)

Lemma setitem_slice2_dt grid h0 h1 w0 w1 v grid' :
  setitem_slice2 grid h0 h1 w0 w1 v = Ok grid' -> dt grid' = dt grid.
Proof.
  unfold setitem_slice2. destruct (shape grid) as [|H [|W [|]]]; try discriminate.
  destruct (broadcast_shape2 (shape v)) as [[vh vw]|]; [|discriminate].
  match goal with |- (if ?c then _ else _) = _ -> _ => destruct c end;
    [|discriminate].
  intros E. now inversion E.
Qed.

Lemma place_cell_dt (cv : Cv2) images g padding rtf norm grid rc tr tr' grid' :
  place_cell images g padding rtf norm grid rc tr = (tr', Ok grid') ->
  dt grid' = dt grid.
Proof.
  unfold place_cell. destruct rc as [row col].
  destruct (row * n_cols g + col >=? n_images g).
  - intros E. now inversion E.
  - unfold bind. destruct (resize rtf g _ tr) as [t1 [img|e]]; [|discriminate].
    match goal with
    | |- match ?m t1 with _ => _ end = _ -> _ => destruct (m t1) as [t2 [img'|e]]
    end; [|discriminate].
    unfold lift. intros E. inversion E as [[Et S]].
    destruct (setitem_slice2 _ _ _ _ _ _) as [gr|] eqn:St; [|discriminate].
    inversion S; subst gr. now apply setitem_slice2_dt in St.
Qed.

Lemma foldM_place_dt (cv : Cv2) images g padding rtf norm l :
  forall grid tr tr' grid',
  foldM (place_cell images g padding rtf norm) l grid tr = (tr', Ok grid') ->
  dt grid' = dt grid.
Proof.
  induction l as [|rc l IH]; intros grid tr tr' grid' F.
  - simpl in F. now inversion F.
  - apply foldM_cons_ok in F. destruct F as (t1 & g1 & P & F).
    rewrite (IH _ _ _ _ F). now apply place_cell_dt in P.
Qed.

(** The grid image is a 2-dimensional float64 array. *)
Lemma assemble_grid_canvas (cv : Cv2) images padding rtf norm tr tr' g canvas :
  assemble_grid images padding rtf norm tr = (tr', Ok (g, canvas)) ->
  dt canvas = Float64 /\ exists H W, shape canvas = [H; W].
Proof.
  intros A. unfold assemble_grid, bind in A.
  destruct (assert_ndim images tr) as [t0 [[]|e]]; [|discriminate].
  unfold lift at 1 in A.
  destruct (squeeze_last images) as [imgs|e]; [|discriminate].
  unfold lift at 1 in A.
  destruct (grid_geometry imgs padding rtf) as [g0|e]; [|discriminate].
  unfold lift at 1 in A.
  destruct (np_full2 _ _ _) as [grid0|e] eqn:N; [|discriminate].
  destruct (foldM _ _ _ _) as [t1 [grid1|e]] eqn:F; [|discriminate].
  unfold ret in A. inversion A; subst t1 g0 grid1; clear A.
  destruct (np_full2_inv _ _ _ _ N) as (_ & _ & Sh & Len & _).
  split.
  - rewrite (foldM_place_dt cv _ _ _ _ _ _ _ _ _ _ F).
    unfold np_full2 in N. destruct (_ || _); [discriminate|]. now inversion N.
  - destruct (foldM_place_frame cv _ _ _ _ _ _ _ _ _ _ _ _ F Sh Len) as (S2 & _).
    eauto.
Qed.

(** Once the grid image is assembled, no check of the module can fail any
    more: the dtype assertion of [show_image] and the two assertions of the
    sign encoding hold for every grid image, so [show_images_grid] returns
    ([imshow] and [waitKey] themselves are taken not to raise). *)
Theorem assembled_grid_is_always_shown (cv : Cv2) images wait padding rtf
    norm vn tr t1 g canvas :
  assemble_grid images padding rtf norm tr = (t1, Ok (g, canvas)) ->
  exists tr',
    show_images_grid images wait padding rtf norm vn tr
    = (tr', Ok (negb (in_quit_keys (cv2_waitKey (wait_ms_of wait))))).
Proof.
  intros A. destruct (assemble_grid_canvas cv _ _ _ _ _ _ _ _ A) as (Dt & H & W & Sh).
  unfold show_images_grid, bind at 1. rewrite A. simpl snd.
  assert (F : is_floating (dt canvas) = true) by now rewrite Dt.
  assert (P : prepare_image canvas false false t1 = (t1, Ok canvas)).
  { unfold prepare_image, bind, py_assert. now rewrite F. }
  unfold show_image, bind. rewrite P.
  destruct (vn && has_negative canvas).
  - destruct (visualize_data canvas F) as (out & V & _).
    { unfold ndim. rewrite Sh. reflexivity. }
    unfold emit, lift. rewrite V.
    unfold waitKey_call, bind, emit, ret. eauto.
  - unfold ret, emit, waitKey_call, bind, emit, ret. eauto.
Qed.

Lemma assembled_grid_is_always_shown_witness :
  exists tr',
    show_images_grid (H := cv2_pressing KEY_q) sample_batch4 (WaitMs 20) 1
                     false false true []
    = (tr', Ok (negb (in_quit_keys KEY_q))).
Proof.
  apply (assembled_grid_is_always_shown (cv2_pressing KEY_q) sample_batch4
           (WaitMs 20) 1 false false true [] [] sample_geometry4
           sample_canvas4).
  vm_compute. reflexivity.
Defined.

Lemma in_firstn {A} (n : nat) (l : list A) (x : A) :
  In x (firstn n l) -> In x l.
Proof.
  revert l. induction n as [|n IH]; intros [|a l] I; simpl in *; try contradiction.
  destruct I as [E|I]; [now left | right; now apply IH].
Qed.

Lemma in_skipn {A} (n : nat) (l : list A) (x : A) :
  In x (skipn n l) -> In x l.
Proof.
  revert l. induction n as [|n IH]; intros [|a l] I; simpl in *; auto.
Qed.

Lemma nth_nonneg (l : list Q) (k : nat) :
  (forall v, In v l -> (0 <= v)%Q) -> (0 <= nth k l 0)%Q.
Proof.
  intros P. destruct (nth_in_or_default k l 0%Q) as [I|E].
  - now apply P.
  - rewrite E. apply Qle_refl.
Qed.

Lemma setitem_slice2_nonneg grid h0 h1 w0 w1 v grid' :
  setitem_slice2 grid h0 h1 w0 w1 v = Ok grid' ->
  (forall q, In q (data grid) -> (0 <= q)%Q) ->
  (forall q, In q (data v) -> (0 <= q)%Q) ->
  forall q, In q (data grid') -> (0 <= q)%Q.
Proof.
  unfold setitem_slice2. destruct (shape grid) as [|H [|W [|]]]; try discriminate.
  destruct (broadcast_shape2 (shape v)) as [[vh vw]|]; [|discriminate].
  match goal with |- (if ?c then _ else _) = _ -> _ => destruct c end;
    [|discriminate].
  intros E Pg Pv q I. inversion E; subst grid'; clear E. simpl in I.
  apply in_map_iff in I. destruct I as (k & Ek & _). subst q.
  match goal with |- (0 <= if ?c then _ else _)%Q => destruct c end;
    now apply nth_nonneg.
Qed.

Lemma place_cell_nonneg (cv : Cv2) images g padding norm grid rc tr tr' grid' :
  place_cell images g padding false norm grid rc tr = (tr', Ok grid') ->
  (forall q, In q (data images) -> (0 <= q)%Q) ->
  (forall q, In q (data grid) -> (0 <= q)%Q) ->
  forall q, In q (data grid') -> (0 <= q)%Q.
Proof.
  unfold place_cell. destruct rc as [row col]. intros P Pi Pg.
  destruct (row * n_cols g + col >=? n_images g).
  - inversion P; subst. exact Pg.
  - unfold resize, bind, ret in P.
    set (img := take_image images _ _ _) in P.
    assert (Pimg : forall q, In q (data img) -> (0 <= q)%Q).
    { intros q I. apply Pi. unfold img in I. simpl in I.
      eapply in_skipn, in_firstn, I. }
    destruct norm.
    + unfold lift in P.
      destruct (np_max (np_abs img)) as [m|e] eqn:M; [|discriminate].
      pose proof (np_max_abs_nonneg _ _ M) as Pm. pose proof eps_pos as EP.
      rewrite scale_by_max_ok in P by lra.
      destruct (setitem_slice2 _ _ _ _ _ _) as [gr|] eqn:St; [|discriminate].
      inversion P; subst gr. apply (setitem_slice2_nonneg _ _ _ _ _ _ _ St Pg).
      intros q I. simpl in I. apply in_map_iff in I.
      destruct I as (v & Ev & Iv). subst q. pose proof (Pimg v Iv).
      apply Qmult_le_0_compat; [|lra].
      apply Qle_shift_div_l; lra.
    + unfold lift in P.
      destruct (setitem_slice2 _ _ _ _ _ _) as [gr|] eqn:St; [|discriminate].
      inversion P; subst gr.
      exact (setitem_slice2_nonneg _ _ _ _ _ _ _ St Pg Pimg).
Qed.

Lemma foldM_place_nonneg (cv : Cv2) images g padding norm l :
  (forall q, In q (data images) -> (0 <= q)%Q) ->
  forall grid tr tr' grid',
  foldM (place_cell images g padding false norm) l grid tr = (tr', Ok grid') ->
  (forall q, In q (data grid) -> (0 <= q)%Q) ->
  forall q, In q (data grid') -> (0 <= q)%Q.
Proof.
  intros Pi. induction l as [|rc l IH]; intros grid tr tr' grid' F Pg.
  - simpl in F. inversion F; subst. exact Pg.
  - apply foldM_cons_ok in F. destruct F as (t1 & g1 & P & F).
    apply (IH _ _ _ _ F). exact (place_cell_nonneg cv _ _ _ _ _ _ _ _ _ P Pi Pg).
Qed.

(** Without [resize_to_fit], a batch that has no negative sample is shown
    as a plain single-channel image: the window gets the grid image divided
    by 255, there is no sign encoding and no other external call, whatever
    [normalize] and [visualize_negative] are. *)
Theorem nonnegative_batch_is_shown_plain (cv : Cv2) images wait padding
    norm vn tr t1 g canvas :
  (forall q, In q (data images) -> (0 <= q)%Q) ->
  assemble_grid images padding false norm tr = (t1, Ok (g, canvas)) ->
  show_images_grid images wait padding false norm vn tr
  = (tr ++ [EvImshow (amap (fun v => v / 255)%Q canvas);
            EvWaitKey (wait_ms_of wait)],
     Ok (negb (in_quit_keys (cv2_waitKey (wait_ms_of wait))))).
Proof.
  intros Pi A.
  destruct (assemble_grid_canvas cv _ _ _ _ _ _ _ _ A) as (Dt & _).
  assert (Et : t1 = tr).
  { destruct (appends_assemble_grid cv images padding false norm tr)
      as (rs & E & F).
    rewrite A in E. simpl in E.
    rewrite (Forall_guard_nil _ _ _ F eq_refl), app_nil_r in E. exact E. }
  subst t1.
  assert (Nn : forall q, In q (data canvas) -> (0 <= q)%Q).
  { pose proof A as A'. unfold assemble_grid, bind in A'.
    destruct (assert_ndim images tr) as [t0 [[]|e]]; [|discriminate].
    unfold lift at 1 in A'.
    destruct (squeeze_last images) as [imgs|e] eqn:S; [|discriminate].
    unfold lift at 1 in A'.
    destruct (grid_geometry imgs padding false) as [g0|e]; [|discriminate].
    unfold lift at 1 in A'.
    destruct (np_full2 _ _ _) as [grid0|e] eqn:N; [|discriminate].
    destruct (foldM _ _ _ _) as [t2 [grid1|e]] eqn:F; [|discriminate].
    unfold ret in A'. inversion A'; subst t2 g0 grid1; clear A'.
    assert (Di : data imgs = data images).
    { unfold squeeze_last in S. destruct (rev (shape images)); [discriminate|].
      destruct (Nat.eqb _ 1); [|discriminate]. now inversion S. }
    apply (foldM_place_nonneg cv _ _ _ _ _ ltac:(rewrite Di; exact Pi) _ _ _ _ F).
    unfold np_full2 in N. destruct (_ || _); [discriminate|].
    inversion N; subst grid0. simpl. intros q I.
    apply repeat_spec in I. subst q. discriminate. }
  unfold show_images_grid, bind at 1. rewrite A. simpl snd.
  assert (F : is_floating (dt canvas) = true) by now rewrite Dt.
  assert (P : prepare_image canvas false false tr = (tr, Ok canvas)).
  { unfold prepare_image, bind, py_assert. now rewrite F. }
  unfold show_image, bind. rewrite P.
  rewrite (proj2 (has_negative_none canvas) Nn), andb_false_r.
  unfold ret, emit, waitKey_call, bind, emit, ret.
  now rewrite <- app_assoc.
Qed.

Lemma nonnegative_batch_is_shown_plain_witness :
  show_images_grid (H := cv2_pressing NO_KEY) sample_batch4 (WaitBool false) 1
                   false false true []
  = ([] ++ [EvImshow (amap (fun v => v / 255)%Q sample_canvas4); EvWaitKey 1],
     Ok (negb (in_quit_keys NO_KEY))).
Proof.
  apply (nonnegative_batch_is_shown_plain (cv2_pressing NO_KEY) sample_batch4
           (WaitBool false) 1 false true [] [] sample_geometry4 sample_canvas4).
  - intros q I. unfold sample_batch4 in I. cbn [data] in I.
    apply in_map_iff in I. destruct I as (k & E & _). subst q.
    change 0%Q with (inject_Z 0). rewrite <- Zle_Qle. lia.
  - vm_compute. reflexivity.
Defined.
